(** * A grid game model (tic-tac-toe family): embedding of [gridgame/model.py]

    The Python module is embedded shallowly: integers are [Z], symbols are
    strings, cells are pairs of integers, the dictionary of occupied cells is a
    [gmap], the move history is a list in chronological order, and a method
    that may raise returns a [result].  A mutating method returns the new
    state next to its value. *)

From stdpp Require Import gmap strings list fin_maps.

Local Open Scope Z_scope.

(** ** Exceptions and the error monad *)

(** The exceptions the module can raise.  [FieldFailure] stands for the
    failure of a field lookup outside the grid. *)
Inductive exn : Type :=
  | ValueError
  | AssertionError
  | IndexError
  | FieldFailure.

Inductive result (A : Type) : Type :=
  | Ok (a : A)
  | Raise (e : exn).
Arguments Ok {A} a.
Arguments Raise {A} e.

#[export] Instance result_ret : MRet result := λ A a, Ok a.
#[export] Instance result_bind : MBind result := λ A B k r,
  match r with
  | Ok a => k a
  | Raise e => Raise e
  end.

(** ** Basic types of [project_types] *)

Abbreviation PlayerId := Z (only parsing).
Abbreviation Symbol := string (only parsing).
Abbreviation Cell := (Z * Z)%type (only parsing).

Inductive Feedback : Type :=
  | VALID
  | GAME_OVER
  | INVALID_SYMBOL
  | OUT_OF_BOUNDS
  | OCCUPIED.

#[export] Instance Feedback_eq_dec : EqDecision Feedback.
Proof. solve_decision. Defined.

(** ** The field *)

Module Field.

(** Modelled from the spec: the class [Field] of [project_types], which is
    imported by [model.py] but not part of the sources.  Section 4.1 of the
    specification gives its contract: a [grid_size] by [grid_size] mapping
    from cells to symbols, initially empty. *)
Record t : Type := mk {
  grid_size : Z;
  occupied_cells : gmap (Z * Z) string
}.

(** Modelled from the spec: the constructor [Field(grid_size)], a fresh
    empty field of the given size. *)
Definition new (size : Z) : t := mk size ∅.

(** Modelled from the spec: [valid_coords], the ordered sequence of valid
    row and column indices, 1..grid_size. *)
Definition valid_coords (f : t) : list Z := seqZ 1 (grid_size f).

(** Modelled from the spec: [is_within_bounds], true iff both coordinates
    lie in [1, grid_size]. *)
Definition is_within_bounds (f : t) (cell : Cell) : bool :=
  (1 <=? cell.1) && (cell.1 <=? grid_size f) &&
  (1 <=? cell.2) && (cell.2 <=? grid_size f).

(** Modelled from the spec: [get_symbol_at], the current occupant or
    absent; it fails when the cell is out of bounds. *)
Definition get_symbol_at (f : t) (cell : Cell) : result (option Symbol) :=
  if is_within_bounds f cell then Ok (occupied_cells f !! cell)
  else Raise FieldFailure.

(** Modelled from the spec: [place_symbol], which marks the cell occupied
    with the symbol. *)
Definition place_symbol (symbol : Symbol) (cell : Cell) (f : t) : t :=
  mk (grid_size f) (<[cell := symbol]> (occupied_cells f)).

(** Modelled from the spec: [are_all_equal_to_basis], true iff every cell
    of the group holds exactly the basis symbol. *)
Definition are_all_equal_to_basis
    (f : t) (basis : Symbol) (group : list Cell) : bool :=
  forallb (λ cell, bool_decide (occupied_cells f !! cell = Some basis)) group.

(** Modelled from the spec: the cells of the grid_size × grid_size grid, row
    by row; [has_unoccupied_cell] looks for a free one among them. *)
Definition cells (f : t) : list Cell :=
  row ← valid_coords f; (λ col, (row, col)) <$> valid_coords f.

(** Modelled from the spec: [has_unoccupied_cell]. *)
Definition has_unoccupied_cell (f : t) : bool :=
  existsb (λ cell, bool_decide (occupied_cells f !! cell = None)) (cells f).

End Field.

(** ** Moves *)

Record GridGameMove : Type := mkMove {
  player : PlayerId;
  symbol : Symbol;
  cell : Cell
}.

#[export] Instance GridGameMove_eq_dec : EqDecision GridGameMove.
Proof. solve_decision. Defined.

Abbreviation GridGameMoveHistory := (list GridGameMove) (only parsing).

(** ** Win validators *)

(** The protocol [WinValidator]: one method, [get_winner]. *)
Class WinValidator (V : Type) : Type :=
  get_winner : V → Field.t → GridGameMoveHistory → result (option PlayerId).

(** The class [TicTacToeWinValidator] has no attributes. *)
Inductive TicTacToeWinValidator : Type := TicTacToe.

Module TicTacToeWinValidator.

(** [_get_groups]: the rows, then the columns, then the two diagonals. *)
Definition _get_groups (f : Field.t) : list (list Cell) :=
  ((λ row, (λ k, (row, k)) <$> Field.valid_coords f) <$> Field.valid_coords f)
  ++ ((λ col, (λ k, (k, col)) <$> Field.valid_coords f) <$> Field.valid_coords f)
  ++ [ (λ k, (k, k)) <$> Field.valid_coords f;
       (λ k, (k, Field.grid_size f - k + 1)) <$> Field.valid_coords f ].

(** The test of the inner loop of [get_winner]. *)
Definition move_matches
    (group : list Cell) (basis : Symbol) (move : GridGameMove) : bool :=
  bool_decide (cell move ∈ group) && bool_decide (symbol move = basis).

(** The inner loop of [get_winner] over the moves it is given (the reversed
    history); its [else] branch is the failing assertion. *)
Fixpoint scan_moves (moves : list GridGameMove)
    (group : list Cell) (basis : Symbol) : result (option PlayerId) :=
  match moves with
  | [] => Raise AssertionError
  | move :: rest =>
      if move_matches group basis move then Ok (Some (player move))
      else scan_moves rest group basis
  end.

(** [group[0]] *)
Definition first_cell (group : list Cell) : result Cell :=
  match group !! 0%nat with
  | Some c => Ok c
  | None => Raise IndexError
  end.

(** The outer loop of [get_winner] over the groups. *)
Fixpoint scan_groups (f : Field.t) (move_history : GridGameMoveHistory)
    (groups : list (list Cell)) : result (option PlayerId) :=
  match groups with
  | [] => Ok None
  | group :: rest =>
      c ← first_cell group;
      basis ← Field.get_symbol_at f c;
      match basis with
      | Some b =>
          if Field.are_all_equal_to_basis f b group
          then scan_moves (reverse move_history) group b
          else scan_groups f move_history rest
      | None => scan_groups f move_history rest
      end
  end.

Definition get_winner (f : Field.t) (move_history : GridGameMoveHistory)
    : result (option PlayerId) :=
  scan_groups f move_history (_get_groups f).

End TicTacToeWinValidator.

#[export] Instance TicTacToe_validator : WinValidator TicTacToeWinValidator :=
  λ _, TicTacToeWinValidator.get_winner.

(** ** The game model *)

Record GridGameModel (V : Type) : Type := mkModel {
  _field : Field.t;
  _move_history : list GridGameMove;
  _win_validator : V;
  _player_count : Z;
  _player_to_symbol : gmap Z string;
  _symbol_to_player : gmap string Z;
  _current_player : PlayerId
}.
Arguments mkModel {V}.
Arguments _field {V}.
Arguments _move_history {V}.
Arguments _win_validator {V}.
Arguments _player_count {V}.
Arguments _player_to_symbol {V}.
Arguments _symbol_to_player {V}.
Arguments _current_player {V}.

(** A Python dictionary built from a sequence of items: a later item
    overwrites an earlier one with the same key. *)
Definition dict_of_items `{Countable K} {A : Type} (items : list (K * A))
    : gmap K A :=
  foldl (λ acc kv, <[kv.1 := kv.2]> acc) ∅ items.

(** [enumerate(xs, start=1)] *)
Definition enumerate1 {A : Type} (xs : list A) : list (Z * A) :=
  zip (seqZ 1 (Z.of_nat (length xs))) xs.

Module GridGameModel.
Section model.
Context {V : Type} `{!WinValidator V}.

(** [__init__] *)
Definition __init__ (grid_size : Z) (player_symbols : list Symbol)
    (player_count : Z) (win_validator : V) : result (GridGameModel V) :=
  if player_count <=? 1 then Raise ValueError
  else
    let unique_symbols : gset string := list_to_set player_symbols in
    if bool_decide (size unique_symbols ≠ length player_symbols)
    then Raise ValueError
    else if bool_decide (Z.of_nat (length player_symbols) ≠ player_count)
    then Raise ValueError
    else
      let items := enumerate1 player_symbols in
      Ok {| _field := Field.new grid_size;
            _move_history := [];
            _win_validator := win_validator;
            _player_count := player_count;
            _player_to_symbol := dict_of_items items;
            _symbol_to_player :=
              dict_of_items ((λ kv, (kv.2, kv.1)) <$> items);
            _current_player := 1 |}.

Definition occupied_cells (m : GridGameModel V) : gmap (Z * Z) string :=
  Field.occupied_cells (_field m).

Definition grid_size (m : GridGameModel V) : Z :=
  Field.grid_size (_field m).

Definition winner (m : GridGameModel V) : result (option PlayerId) :=
  get_winner (_win_validator m) (_field m) (_move_history m).

(** [self.winner is not None or not self._field.has_unoccupied_cell()] *)
Definition is_game_over (m : GridGameModel V) : result bool :=
  w ← winner m;
  match w with
  | Some _ => Ok true
  | None => Ok (negb (Field.has_unoccupied_cell (_field m)))
  end.

Definition current_player (m : GridGameModel V) : PlayerId :=
  _current_player m.

Definition player_count (m : GridGameModel V) : Z :=
  _player_count m.

Definition next_player (m : GridGameModel V) : PlayerId :=
  if bool_decide (current_player m ≠ player_count m)
  then current_player m + 1
  else 1.

Definition get_symbol_choices (m : GridGameModel V) (p : PlayerId)
    : result (list Symbol) :=
  match _player_to_symbol m !! p with
  | None => Raise ValueError
  | Some s => Ok [s]
  end.

Definition _switch_to_next_player (m : GridGameModel V) : GridGameModel V :=
  mkModel (_field m) (_move_history m) (_win_validator m) (_player_count m)
    (_player_to_symbol m) (_symbol_to_player m) (next_player m).

(** The three mutations at the end of [place_symbol]. *)
Definition commit_move (m : GridGameModel V) (s : Symbol) (c : Cell)
    : GridGameModel V :=
  let m1 :=
    mkModel (Field.place_symbol s c (_field m)) (_move_history m)
      (_win_validator m) (_player_count m)
      (_player_to_symbol m) (_symbol_to_player m) (_current_player m) in
  let m2 :=
    mkModel (_field m1)
      (_move_history m1 ++ [mkMove (_current_player m1) s c])
      (_win_validator m1) (_player_count m1)
      (_player_to_symbol m1) (_symbol_to_player m1) (_current_player m1) in
  _switch_to_next_player m2.

(** [place_symbol]: the feedback and the state after the call. *)
Definition place_symbol (m : GridGameModel V) (s : Symbol) (c : Cell)
    : result (Feedback * GridGameModel V) :=
  over ← is_game_over m;
  if over : bool then Ok (GAME_OVER, m)
  else
    choices ← get_symbol_choices m (current_player m);
    if bool_decide (s ∉ choices) then Ok (INVALID_SYMBOL, m)
    else if negb (Field.is_within_bounds (_field m) c)
    then Ok (OUT_OF_BOUNDS, m)
    else
      occupant ← Field.get_symbol_at (_field m) c;
      match occupant with
      | Some _ => Ok (OCCUPIED, m)
      | None => Ok (VALID, commit_move m s c)
      end.

End model.
End GridGameModel.

(** ** Driving a model through several calls *)

(** A sequence of [place_symbol] calls on one model: the feedback of every
    call, in order, and the final state. *)
Fixpoint place_symbols {V : Type} `{!WinValidator V}
    (m : GridGameModel V) (calls : list (string * (Z * Z)))
    : result (list Feedback * GridGameModel V) :=
  match calls with
  | [] => Ok ([], m)
  | (s, c) :: rest =>
      r ← GridGameModel.place_symbol m s c;
      rs ← place_symbols r.2 rest;
      Ok (r.1 :: rs.1, rs.2)
  end.

(** The number of accepted moves among the feedbacks of some calls. *)
Definition accepted (feedbacks : list Feedback) : nat :=
  length (filter (λ feedback, feedback = VALID) feedbacks).

(** The states a caller can reach: a successful construction followed by
    any number of [place_symbol] calls that return. *)
Inductive reachable {V : Type} `{!WinValidator V} : GridGameModel V → Prop :=
  | reachable_init grid_size player_symbols count validator m :
      GridGameModel.__init__ grid_size player_symbols count validator = Ok m →
      reachable m
  | reachable_place m s c feedback m' :
      reachable m →
      GridGameModel.place_symbol m s c = Ok (feedback, m') →
      reachable m'.

(** A group is fully occupied by the symbol [s]. *)
Definition full_of (f : Field.t) (s : string) (group : list (Z * Z)) : Prop :=
  ∀ c, c ∈ group → Field.occupied_cells f !! c = Some s.

(** A group is fully occupied by a single symbol. *)
Definition winning_group (f : Field.t) (group : list (Z * Z)) : Prop :=
  ∃ s, full_of f s group.

(** ** Consistency of a model *)

(** What every state built by the constructor and changed only by
    [place_symbol] satisfies. *)
Record consistent {V : Type} (m : GridGameModel V) : Prop := mkConsistent {
  turn_in_range : 1 ≤ _current_player m ≤ _player_count m;
  history_counts_cells :
    length (_move_history m) = size (Field.occupied_cells (_field m));
  players_have_symbols :
    ∀ k, 1 ≤ k ≤ _player_count m → is_Some (_player_to_symbol m !! k);
  occupied_in_bounds :
    ∀ c, is_Some (Field.occupied_cells (_field m) !! c) →
         Field.is_within_bounds (_field m) c = true;
  occupied_has_move :
    ∀ c s, Field.occupied_cells (_field m) !! c = Some s →
           ∃ mv, mv ∈ _move_history m ∧ cell mv = c ∧ symbol mv = s
}.

(** ** Sample games, used to exercise the statements below *)

Definition sample_start : result (GridGameModel TicTacToeWinValidator) :=
  GridGameModel.__init__ 3 ["X"; "O"]%string 2 TicTacToe.

(** The state after the given calls on a fresh 3 by 3 board of X and O;
    a call that raises leaves the board of the previous call. *)
Definition sample_after (calls : list (string * (Z * Z)))
    : GridGameModel TicTacToeWinValidator :=
  match sample_start with
  | Ok m0 =>
      match place_symbols m0 calls with
      | Ok r => r.2
      | Raise _ => m0
      end
  | Raise _ =>
      mkModel (Field.new 3) [] TicTacToe 2 ∅ ∅ 1
  end.

(** X opens at the top left corner; O is to move. *)
Definition sample_opened : GridGameModel TicTacToeWinValidator :=
  sample_after [("X", (1, 1))]%string.

(** X has completed the top row. *)
Definition sample_won : GridGameModel TicTacToeWinValidator :=
  sample_after [("X", (1, 1)); ("O", (2, 1)); ("X", (1, 2));
                ("O", (2, 2)); ("X", (1, 3))]%string.

(** A full board without a line. *)
Definition sample_drawn : GridGameModel TicTacToeWinValidator :=
  sample_after [("X", (1, 1)); ("O", (1, 2)); ("X", (1, 3));
                ("O", (2, 2)); ("X", (2, 1)); ("O", (2, 3));
                ("X", (3, 2)); ("O", (3, 1)); ("X", (3, 3))]%string.

(** A 2 by 2 field handed to the validator directly: both rows are
    complete, the first with X and the second with O, and O moved last. *)
Definition two_rows_field : Field.t :=
  Field.mk 2 (list_to_map [((1, 1), "X"); ((1, 2), "X");
                           ((2, 1), "O"); ((2, 2), "O")]%string).

Definition two_rows_history : list GridGameMove :=
  [mkMove 1 "X" (1, 1); mkMove 2 "O" (2, 1);
   mkMove 1 "X" (1, 2); mkMove 2 "O" (2, 2)]%string.

(** A 2 by 2 field whose first row was filled with the same symbol by two
    different players, player 2 last. *)
Definition shared_row_field : Field.t :=
  Field.mk 2 (list_to_map [((1, 1), "X"); ((1, 2), "X")]%string).

Definition shared_row_history : list GridGameMove :=
  [mkMove 1 "X" (1, 1); mkMove 2 "X" (1, 2)]%string.

(** A 1 by 1 field holding a symbol that no move of the history placed. *)
Definition orphan_field : Field.t :=
  Field.mk 1 (list_to_map [((1, 1), "X")]%string).

(** A fresh 3 by 3 board of X and O. *)
Definition sample_fresh : GridGameModel TicTacToeWinValidator :=
  sample_after [].

(** Five calls on the fresh board, of which the first and the last are
    accepted: X opens, X tries to move again, O aims off the board, O aims
    at the occupied corner, O moves. *)
Definition mixed_calls : list (string * (Z * Z)) :=
  [("X", (1, 1)); ("X", (1, 1)); ("O", (9, 9)); ("O", (1, 1));
   ("O", (2, 1))]%string.

Definition sample_mixed : GridGameModel TicTacToeWinValidator :=
  sample_after mixed_calls.

(** X is one move away from completing the top row. *)
Definition sample_before_win : GridGameModel TicTacToeWinValidator :=
  sample_after [("X", (1, 1)); ("O", (2, 1)); ("X", (1, 2));
                ("O", (2, 2))]%string.

(** A model constructed with a negative grid size. *)
Definition sample_negative_grid : GridGameModel TicTacToeWinValidator :=
  match GridGameModel.__init__ (-1) ["X"; "O"]%string 2 TicTacToe with
  | Ok m => m
  | Raise _ => mkModel (Field.new (-1)) [] TicTacToe 2 ∅ ∅ 1
  end.

(** * Properties *)

(** ** The error monad *)

Lemma bind_Ok_inv {A B : Type} (r : result A) (k : A → result B) (b : B) :
  r ≫= k = Ok b → ∃ a, r = Ok a ∧ k a = Ok b.
Proof. destruct r as [a|e]; simpl; [eauto | discriminate]. Qed.

Lemma Ok_inj_iff {A : Type} (a b : A) : Ok a = Ok b ↔ a = b.
Proof. split; congruence. Qed.

Lemma bind_Ok {A B : Type} (k : A → result B) (a : A) : Ok a ≫= k = k a.
Proof. reflexivity. Qed.

Tactic Notation "inv_bind" hyp(H) "as" ident(a) ident(Ha) :=
  apply bind_Ok_inv in H as (a & Ha & H).

(** ** The field *)

Lemma is_within_bounds_spec (f : Field.t) (c : Z * Z) :
  Field.is_within_bounds f c = true ↔
  1 ≤ c.1 ≤ Field.grid_size f ∧ 1 ≤ c.2 ≤ Field.grid_size f.
Proof. unfold Field.is_within_bounds. rewrite !andb_true_iff, !Z.leb_le. lia. Qed.

Lemma get_symbol_at_in_bounds (f : Field.t) (c : Z * Z) :
  Field.is_within_bounds f c = true →
  Field.get_symbol_at f c = Ok (Field.occupied_cells f !! c).
Proof. unfold Field.get_symbol_at. by intros ->. Qed.

(** ** [place_symbol]: rejections and the accepted move *)

Section place_symbol_facts.
Context {V : Type} `{!WinValidator V}.
Implicit Types (m : GridGameModel V) (s : string) (c : Z * Z).

Lemma place_symbol_game_over m s c :
  GridGameModel.is_game_over m = Ok true →
  GridGameModel.place_symbol m s c = Ok (GAME_OVER, m).
Proof. unfold GridGameModel.place_symbol. by intros ->. Qed.

(** The first two checks passed: what remains of [place_symbol]. *)
Lemma place_symbol_own_symbol m s c choices :
  GridGameModel.is_game_over m = Ok false →
  GridGameModel.get_symbol_choices m (GridGameModel.current_player m)
    = Ok choices →
  s ∈ choices →
  GridGameModel.place_symbol m s c =
    if Field.is_within_bounds (_field m) c then
      match GridGameModel.occupied_cells m !! c with
      | Some _ => Ok (OCCUPIED, m)
      | None => Ok (VALID, GridGameModel.commit_move m s c)
      end
    else Ok (OUT_OF_BOUNDS, m).
Proof.
  intros Hover Hchoices Hin. unfold GridGameModel.place_symbol.
  rewrite Hover, bind_Ok, Hchoices, bind_Ok.
  rewrite bool_decide_eq_false_2 by (intros Hn; by apply Hn).
  destruct (Field.is_within_bounds (_field m) c) eqn:Hb; simpl; [|done].
  by rewrite get_symbol_at_in_bounds.
Qed.

(** C1: [place_symbol] tests its rejection conditions in the order game
    over, wrong symbol, out of bounds, occupied, and answers with the
    feedback of the first one that holds, leaving the state as it was.  A
    game that is over answers GAME_OVER whatever the arguments, an
    out-of-bounds cell included. *)
Theorem place_symbol_rejection_order m s c :
  (GridGameModel.is_game_over m = Ok true →
   GridGameModel.place_symbol m s c = Ok (GAME_OVER, m))
  ∧ (∀ choices,
      GridGameModel.is_game_over m = Ok false →
      GridGameModel.get_symbol_choices m (GridGameModel.current_player m)
        = Ok choices →
      s ∉ choices →
      GridGameModel.place_symbol m s c = Ok (INVALID_SYMBOL, m))
  ∧ (∀ choices,
      GridGameModel.is_game_over m = Ok false →
      GridGameModel.get_symbol_choices m (GridGameModel.current_player m)
        = Ok choices →
      s ∈ choices →
      Field.is_within_bounds (_field m) c = false →
      GridGameModel.place_symbol m s c = Ok (OUT_OF_BOUNDS, m))
  ∧ (∀ choices,
      GridGameModel.is_game_over m = Ok false →
      GridGameModel.get_symbol_choices m (GridGameModel.current_player m)
        = Ok choices →
      s ∈ choices →
      Field.is_within_bounds (_field m) c = true →
      is_Some (GridGameModel.occupied_cells m !! c) →
      GridGameModel.place_symbol m s c = Ok (OCCUPIED, m)).
Proof.
  split; [apply place_symbol_game_over|].
  split; [|split].
  - intros choices Hover Hchoices Hnot. unfold GridGameModel.place_symbol.
    rewrite Hover, bind_Ok, Hchoices, bind_Ok.
    by rewrite bool_decide_eq_true_2.
  - intros choices Hover Hchoices Hin Hb.
    by rewrite (place_symbol_own_symbol _ _ _ choices), Hb.
  - intros choices Hover Hchoices Hin Hb [occupant Hocc].
    by rewrite (place_symbol_own_symbol _ _ _ choices), Hb, Hocc.
Qed.

(** C2: when no rejection condition holds, [place_symbol] puts the symbol
    on the field at the cell, appends the move of the current player to the
    history, hands the turn to the next player and answers VALID. *)
Theorem place_symbol_valid m s c choices :
  GridGameModel.is_game_over m = Ok false →
  GridGameModel.get_symbol_choices m (GridGameModel.current_player m)
    = Ok choices →
  s ∈ choices →
  Field.is_within_bounds (_field m) c = true →
  GridGameModel.occupied_cells m !! c = None →
  ∃ m',
    GridGameModel.place_symbol m s c = Ok (VALID, m')
    ∧ GridGameModel.occupied_cells m' = <[c := s]> (GridGameModel.occupied_cells m)
    ∧ GridGameModel.grid_size m' = GridGameModel.grid_size m
    ∧ _move_history m' =
        _move_history m ++ [mkMove (GridGameModel.current_player m) s c]
    ∧ GridGameModel.current_player m' = GridGameModel.next_player m
    ∧ GridGameModel.player_count m' = GridGameModel.player_count m
    ∧ _player_to_symbol m' = _player_to_symbol m
    ∧ _symbol_to_player m' = _symbol_to_player m
    ∧ _win_validator m' = _win_validator m.
Proof.
  intros Hover Hchoices Hin Hb Hfree.
  exists (GridGameModel.commit_move m s c).
  rewrite (place_symbol_own_symbol _ _ _ choices), Hb, Hfree by done.
  by repeat split.
Qed.

(** Every outcome of [place_symbol] other than VALID leaves the state. *)
Lemma place_symbol_rejected m s c feedback m' :
  GridGameModel.place_symbol m s c = Ok (feedback, m') →
  feedback ≠ VALID → m' = m.
Proof.
  unfold GridGameModel.place_symbol. intros H Hne.
  inv_bind H as over Hover. destruct over; [congruence|].
  inv_bind H as choices Hchoices. case_bool_decide; [congruence|].
  destruct (Field.is_within_bounds _ _); simpl in H; [|congruence].
  inv_bind H as occupant Hocc. destruct occupant; congruence.
Qed.

(** C4: once [is_game_over] is true, every later [place_symbol] call,
    whatever its arguments, answers GAME_OVER and leaves the occupied
    cells, the move history and the current player as they were; so no
    placement ever succeeds from a won or drawn game. *)
Theorem terminal_lockout m :
  GridGameModel.is_game_over m = Ok true →
  (∀ s c, GridGameModel.place_symbol m s c = Ok (GAME_OVER, m))
  ∧ (∀ calls,
      ∃ m',
        place_symbols m calls = Ok (replicate (length calls) GAME_OVER, m')
        ∧ GridGameModel.occupied_cells m' = GridGameModel.occupied_cells m
        ∧ _move_history m' = _move_history m
        ∧ GridGameModel.current_player m' = GridGameModel.current_player m
        ∧ GridGameModel.is_game_over m' = Ok true).
Proof.
  intros Hover. split; [intros; by apply place_symbol_game_over|].
  intros calls. exists m. split; [|done].
  induction calls as [|[s c] calls IH]; simpl; [done|].
  by rewrite place_symbol_game_over, bind_Ok; simpl; rewrite ?IH.
Qed.

End place_symbol_facts.

(** ** Dictionaries built from items *)

Lemma dict_of_items_list_to_map `{Countable K} {A : Type} (items : list (K * A)) :
  dict_of_items items = list_to_map (reverse items).
Proof.
  unfold dict_of_items. induction items as [|[k a] items IH] using rev_ind; [done|].
  by rewrite foldl_app, reverse_app; simpl; rewrite IH.
Qed.

Lemma dict_of_items_lookup `{Countable K} {A : Type}
    (items : list (K * A)) (k : K) (a : A) :
  NoDup items.*1 →
  dict_of_items items !! k = Some a ↔ (k, a) ∈ items.
Proof.
  intros Hnd. rewrite dict_of_items_list_to_map.
  rewrite <- elem_of_list_to_map, elem_of_reverse; [done|].
  by rewrite fmap_reverse, reverse_Permutation.
Qed.

Lemma enumerate1_keys {A : Type} (xs : list A) :
  (enumerate1 xs).*1 = seqZ 1 (Z.of_nat (length xs)).
Proof.
  unfold enumerate1. apply fst_zip. rewrite length_seqZ. lia.
Qed.

Lemma enumerate1_values {A : Type} (xs : list A) : (enumerate1 xs).*2 = xs.
Proof.
  unfold enumerate1. apply snd_zip. rewrite length_seqZ. lia.
Qed.

Lemma elem_of_enumerate1 {A : Type} (xs : list A) (k : Z) (x : A) :
  (k, x) ∈ enumerate1 xs ↔ ∃ i : nat, xs !! i = Some x ∧ k = Z.of_nat i + 1.
Proof.
  unfold enumerate1. rewrite list_elem_of_lookup. split.
  - intros [i Hi]. apply lookup_zip_with_Some in Hi as (k' & x' & [= <- <-] & Hk & Hx).
    exists i. split; [done|]. apply lookup_seqZ in Hk. lia.
  - intros (i & Hx & ->). exists i. apply lookup_zip_with_Some.
    exists (Z.of_nat i + 1), x. split; [done|]. split; [|done].
    apply lookup_seqZ. apply lookup_lt_Some in Hx. lia.
Qed.

Lemma enumerate1_lookup {A : Type} (xs : list A) (k : Z) (x : A) :
  dict_of_items (enumerate1 xs) !! k = Some x ↔
  ∃ i : nat, xs !! i = Some x ∧ k = Z.of_nat i + 1.
Proof.
  rewrite dict_of_items_lookup, elem_of_enumerate1; [done|].
  rewrite enumerate1_keys. apply NoDup_seqZ.
Qed.

(** ** Duplicates, as the constructor detects them *)

Lemma size_list_to_set_le (l : list string) :
  (size (list_to_set l : gset string) ≤ length l)%nat.
Proof.
  induction l as [|x l IH]; [done|]. rewrite list_to_set_cons; simpl.
  rewrite size_union_alt, size_singleton.
  assert (size (list_to_set l ∖ {[x]} : gset string)
            ≤ size (list_to_set l : gset string))%nat as Hle
    by (apply subseteq_size; set_solver).
  lia.
Qed.

Lemma size_list_to_set_NoDup (l : list string) :
  size (list_to_set l : gset string) = length l ↔ NoDup l.
Proof.
  split; [|apply size_list_to_set].
  induction l as [|x l IH]; [constructor|].
  rewrite list_to_set_cons; simpl. intros Hsize.
  destruct (decide (x ∈ l)) as [Hin|Hnin].
  - assert ({[x]} ∪ list_to_set l = (list_to_set l : gset string)) as Heq
      by set_solver.
    rewrite Heq in Hsize. pose proof (size_list_to_set_le l). lia.
  - constructor; [done|]. apply IH.
    rewrite size_union in Hsize by set_solver.
    rewrite size_singleton in Hsize. lia.
Qed.

(** ** The constructor *)

Section constructor_facts.
Context {V : Type} `{!WinValidator V}.
Implicit Types (m : GridGameModel V) (v : V).

(** The constructor either raises [ValueError] or returns the model below. *)
Lemma init_cases grid_size player_symbols count v :
  (GridGameModel.__init__ grid_size player_symbols count v = Raise ValueError
   ∧ (count ≤ 1 ∨ ¬ NoDup player_symbols
      ∨ Z.of_nat (length player_symbols) ≠ count))
  ∨ (GridGameModel.__init__ grid_size player_symbols count v =
       Ok (mkModel (Field.new grid_size) [] v count
             (dict_of_items (enumerate1 player_symbols))
             (dict_of_items ((λ kv, (kv.2, kv.1)) <$> enumerate1 player_symbols))
             1)
     ∧ 2 ≤ count ∧ NoDup player_symbols
     ∧ Z.of_nat (length player_symbols) = count).
Proof.
  unfold GridGameModel.__init__.
  destruct (Z.leb_spec count 1); [left; auto|].
  case_bool_decide as Hdup.
  { left. split; [done|]. right; left. by rewrite <- size_list_to_set_NoDup. }
  case_bool_decide as Hlen; [left; auto|].
  right. split; [done|]. split; [lia|]. split; [|lia].
  apply size_list_to_set_NoDup. by destruct (decide (size (list_to_set player_symbols : gset string) = length player_symbols)).
Qed.

Lemma init_Ok_inv grid_size player_symbols count v m :
  GridGameModel.__init__ grid_size player_symbols count v = Ok m →
  m = mkModel (Field.new grid_size) [] v count
        (dict_of_items (enumerate1 player_symbols))
        (dict_of_items ((λ kv, (kv.2, kv.1)) <$> enumerate1 player_symbols))
        1
  ∧ 2 ≤ count ∧ NoDup player_symbols
  ∧ Z.of_nat (length player_symbols) = count.
Proof.
  destruct (init_cases grid_size player_symbols count v) as [[-> _]|[-> ?]];
    [discriminate|].
  intros [= <-]. done.
Qed.

(** C8: the constructor fails with [ValueError] exactly when the player
    count is at most one, or the symbols contain a duplicate, or their
    number differs from the player count.  Otherwise it returns a model
    with an empty field of the given size, an empty history, the players
    1..player_count holding the symbols in the order given, player 1 to
    move, and the configured player count. *)
Theorem constructor_contract grid_size player_symbols count v :
  (GridGameModel.__init__ grid_size player_symbols count v = Raise ValueError
   ↔ count ≤ 1 ∨ ¬ NoDup player_symbols
     ∨ Z.of_nat (length player_symbols) ≠ count)
  ∧ (¬ (count ≤ 1 ∨ ¬ NoDup player_symbols
        ∨ Z.of_nat (length player_symbols) ≠ count) →
     ∃ m,
       GridGameModel.__init__ grid_size player_symbols count v = Ok m
       ∧ GridGameModel.occupied_cells m = ∅
       ∧ GridGameModel.grid_size m = grid_size
       ∧ _move_history m = []
       ∧ _win_validator m = v
       ∧ GridGameModel.current_player m = 1
       ∧ GridGameModel.player_count m = count
       ∧ (∀ k s, _player_to_symbol m !! k = Some s ↔
                 1 ≤ k ≤ count ∧ player_symbols !! Z.to_nat (k - 1) = Some s)
       ∧ (∀ s k, _symbol_to_player m !! s = Some k ↔
                 _player_to_symbol m !! k = Some s)).
Proof.
  destruct (init_cases grid_size player_symbols count v)
    as [[Hinit Hbad]|(Hinit & Hcount & Hnd & Hlen)]; rewrite Hinit.
  { split; [done|]. intros Hgood. by destruct Hgood. }
  split.
  { split; [discriminate|]. intros [?|[?|?]]; [lia|done|lia]. }
  intros _. eexists. split; [done|]. simpl.
  assert (∀ xs : list string,
    ((λ kv : Z * string, (kv.2, kv.1)) <$> enumerate1 xs).*1 = xs) as Hswap.
  { intros xs. rewrite <- list_fmap_compose.
    rewrite <- (enumerate1_values xs) at 2. by apply list_fmap_ext. }
  assert (NoDup (enumerate1 player_symbols).*1) as Hkeys
    by (rewrite enumerate1_keys; apply NoDup_seqZ).
  split_and!; [done..| |].
  - intros k s. rewrite enumerate1_lookup. split.
    + intros (i & Hi & ->). pose proof (lookup_lt_Some _ _ _ Hi) as Hlt.
      split; [lia|]. by replace (Z.to_nat (Z.of_nat i + 1 - 1)) with i by lia.
    + intros ([Hk1 Hk2] & Hs). exists (Z.to_nat (k - 1)). split; [done|lia].
  - intros s k. rewrite !dict_of_items_lookup by (by rewrite ?Hswap).
    rewrite list_elem_of_fmap. split.
    + by intros ([k' s'] & [= -> ->] & Hin).
    + intros Hin. by exists (k, s).
Qed.

Lemma init_consistent grid_size player_symbols count v m :
  GridGameModel.__init__ grid_size player_symbols count v = Ok m →
  consistent m.
Proof.
  intros (-> & Hcount & Hnd & Hlen)%init_Ok_inv. split; simpl.
  - lia.
  - by rewrite map_size_empty.
  - intros k Hk. destruct (lookup_lt_is_Some_2 player_symbols (Z.to_nat (k - 1)))
      as [s Hs]; [lia|].
    exists s. apply enumerate1_lookup. exists (Z.to_nat (k - 1)). split; [done|lia].
  - intros c [s Hs]. by rewrite lookup_empty in Hs.
  - intros c s Hs. by rewrite lookup_empty in Hs.
Qed.

End constructor_facts.

(** ** Invariants of the reachable states *)

Section invariants.
Context {V : Type} `{!WinValidator V}.
Implicit Types (m : GridGameModel V) (s : string) (c : Z * Z).

(** A call that returns either rejected the move and kept the state, or
    accepted it after all four checks. *)
Lemma place_symbol_Ok_inv m s c feedback m' :
  GridGameModel.place_symbol m s c = Ok (feedback, m') →
  (feedback ≠ VALID ∧ m' = m)
  ∨ (feedback = VALID ∧ m' = GridGameModel.commit_move m s c
     ∧ GridGameModel.is_game_over m = Ok false
     ∧ _player_to_symbol m !! _current_player m = Some s
     ∧ Field.is_within_bounds (_field m) c = true
     ∧ Field.occupied_cells (_field m) !! c = None).
Proof.
  unfold GridGameModel.place_symbol. intros H.
  inv_bind H as over Hover. destruct over; [left; by simplify_eq|].
  inv_bind H as choices Hchoices.
  case_bool_decide as Hs; [left; by simplify_eq|].
  destruct (Field.is_within_bounds _ _) eqn:Hb; simpl in H;
    [|left; by simplify_eq].
  rewrite get_symbol_at_in_bounds in H by done. rewrite bind_Ok in H.
  destruct (Field.occupied_cells _ !! c) eqn:Hocc; [left; by simplify_eq|].
  right. simplify_eq. repeat split; try done.
  unfold GridGameModel.get_symbol_choices, GridGameModel.current_player in Hchoices.
  destruct (_player_to_symbol m !! _current_player m) as [s'|]; [|done].
  simplify_eq. by apply list_elem_of_singleton in Hs as ->.
Qed.

Lemma commit_move_consistent m s c :
  consistent m →
  Field.is_within_bounds (_field m) c = true →
  Field.occupied_cells (_field m) !! c = None →
  consistent (GridGameModel.commit_move m s c).
Proof.
  intros [Hturn Hlen Hsym Hbounds Hmoves] Hb Hfree. split; simpl.
  - unfold GridGameModel.next_player, GridGameModel.current_player,
      GridGameModel.player_count; simpl.
    case_bool_decide; lia.
  - rewrite length_app, map_size_insert_None by done. simpl. lia.
  - done.
  - intros c' Hc'. unfold Field.is_within_bounds in *. simpl.
    destruct (decide (c = c')) as [<-|Hne]; [done|].
    rewrite lookup_insert_ne in Hc' by done. by apply Hbounds.
  - intros c' s' Hc'. destruct (decide (c = c')) as [<-|Hne].
    + rewrite lookup_insert_eq in Hc'. simplify_eq.
      eexists. split; [apply elem_of_app; right; apply list_elem_of_here|done].
    + rewrite lookup_insert_ne in Hc' by done.
      destruct (Hmoves c' s' Hc') as (mv & Hin & Hcell & Hsymbol).
      exists mv. split; [apply elem_of_app; by left|done].
Qed.

Lemma reachable_consistent m : reachable m → consistent m.
Proof.
  induction 1 as [gs syms count v m Hinit|m s c feedback m' _ IH Hplace].
  - by eapply init_consistent.
  - apply place_symbol_Ok_inv in Hplace
      as [[_ ->]|(_ & -> & _ & _ & Hb & Hfree)]; [done|].
    by apply commit_move_consistent.
Qed.

(** C9: in every state reached from a valid construction by any sequence of
    operations, the current player lies in [1, player_count] and the move
    history is as long as the number of occupied cells. *)
Theorem reachable_invariants m :
  reachable m →
  1 ≤ GridGameModel.current_player m ≤ GridGameModel.player_count m
  ∧ length (_move_history m) = size (GridGameModel.occupied_cells m).
Proof. intros [Hturn Hlen _ _ _]%reachable_consistent. done. Qed.

(** C3, amended: in a reachable state whose game is not over, placing the
    current player's own symbol on an occupied cell answers OCCUPIED and
    leaves the state as it was. *)
Theorem occupied_cell_rejected m s c choices :
  reachable m →
  GridGameModel.is_game_over m = Ok false →
  GridGameModel.get_symbol_choices m (GridGameModel.current_player m)
    = Ok choices →
  s ∈ choices →
  is_Some (GridGameModel.occupied_cells m !! c) →
  GridGameModel.place_symbol m s c = Ok (OCCUPIED, m).
Proof.
  intros Hreach Hover Hchoices Hin Hocc.
  pose proof (occupied_in_bounds m (reachable_consistent m Hreach) c Hocc) as Hb.
  rewrite (place_symbol_own_symbol m s c choices), Hb by done.
  by destruct Hocc as [occupant ->].
Qed.

(** In a reachable state the player to move always has a symbol, so
    [get_symbol_choices] of the current player never raises. *)
Lemma reachable_symbol_choices m :
  reachable m →
  ∃ s, GridGameModel.get_symbol_choices m (GridGameModel.current_player m)
       = Ok [s].
Proof.
  intros [Hturn _ Hsym _ _]%reachable_consistent.
  destruct (Hsym _ Hturn) as [s Hs]. exists s.
  unfold GridGameModel.get_symbol_choices, GridGameModel.current_player.
  by rewrite Hs.
Qed.

End invariants.

(** ** The groups of the line validator *)

Section groups.
Implicit Types (f : Field.t) (g : list (Z * Z)) (c : Z * Z).

Lemma elem_of_valid_coords f k :
  k ∈ Field.valid_coords f ↔ 1 ≤ k ≤ Field.grid_size f.
Proof. unfold Field.valid_coords. rewrite elem_of_seqZ. lia. Qed.

Lemma length_valid_coords f :
  length (Field.valid_coords f) = Z.to_nat (Field.grid_size f).
Proof. apply length_seqZ. Qed.

(** The [j]-th cell of a line built over the valid coordinates. *)
Lemma line_lookup {A : Type} f (line : Z → A) (j : nat) :
  (j < Z.to_nat (Field.grid_size f))%nat →
  (line <$> Field.valid_coords f) !! j = Some (line (Z.of_nat j + 1)).
Proof.
  intros Hj. rewrite list_lookup_fmap. unfold Field.valid_coords.
  rewrite lookup_seqZ_lt by lia. simpl. do 2 f_equal. lia.
Qed.

Lemma elem_of_get_groups f g :
  g ∈ TicTacToeWinValidator._get_groups f ↔
    (∃ row, row ∈ Field.valid_coords f
            ∧ g = (λ k, (row, k)) <$> Field.valid_coords f)
    ∨ (∃ col, col ∈ Field.valid_coords f
              ∧ g = (λ k, (k, col)) <$> Field.valid_coords f)
    ∨ g = (λ k, (k, k)) <$> Field.valid_coords f
    ∨ g = (λ k, (k, Field.grid_size f - k + 1)) <$> Field.valid_coords f.
Proof.
  unfold TicTacToeWinValidator._get_groups.
  rewrite !elem_of_app, !list_elem_of_fmap, !elem_of_cons, elem_of_nil.
  naive_solver.
Qed.

Lemma get_groups_length f :
  length (TicTacToeWinValidator._get_groups f)
  = (2 * Z.to_nat (Field.grid_size f) + 2)%nat.
Proof.
  unfold TicTacToeWinValidator._get_groups.
  rewrite !length_app, !length_fmap, length_valid_coords. simpl. lia.
Qed.

Lemma group_length f g :
  g ∈ TicTacToeWinValidator._get_groups f →
  length g = Z.to_nat (Field.grid_size f).
Proof.
  intros Hg. apply elem_of_get_groups in Hg
    as [(row & _ & ->)|[(col & _ & ->)|[->| ->]]];
    by rewrite length_fmap, length_valid_coords.
Qed.

Lemma group_in_bounds f g c :
  g ∈ TicTacToeWinValidator._get_groups f → c ∈ g →
  Field.is_within_bounds f c = true.
Proof.
  intros Hg Hc. apply is_within_bounds_spec.
  apply elem_of_get_groups in Hg
    as [(row & Hrow & ->)|[(col & Hcol & ->)|[->| ->]]];
    apply list_elem_of_fmap in Hc as (k & -> & Hk);
    rewrite elem_of_valid_coords in *; simpl; lia.
Qed.

Lemma group_nonempty f g :
  1 ≤ Field.grid_size f →
  g ∈ TicTacToeWinValidator._get_groups f → g ≠ [].
Proof.
  intros Hsize Hg Hnil. apply group_length in Hg. rewrite Hnil in Hg.
  simpl in Hg. lia.
Qed.

(** Where each group stands in the enumeration, cell by cell: group [i] is
    row [i + 1], group [n + i] is column [i + 1], and the two diagonals
    come last. *)
Lemma get_groups_lookup f (i j : nat) :
  (i < Z.to_nat (Field.grid_size f))%nat →
  (j < Z.to_nat (Field.grid_size f))%nat →
  TicTacToeWinValidator._get_groups f !! i ≫= (.!! j)
    = Some (Z.of_nat i + 1, Z.of_nat j + 1)
  ∧ TicTacToeWinValidator._get_groups f !! (Z.to_nat (Field.grid_size f) + i)%nat
      ≫= (.!! j)
    = Some (Z.of_nat j + 1, Z.of_nat i + 1).
Proof.
  intros Hi Hj. unfold TicTacToeWinValidator._get_groups. split.
  - rewrite lookup_app_l by (by rewrite length_fmap, length_valid_coords).
    rewrite line_lookup by done. simpl. by rewrite line_lookup.
  - rewrite lookup_app_r by (rewrite length_fmap, length_valid_coords; lia).
    rewrite length_fmap, length_valid_coords.
    replace (Z.to_nat (Field.grid_size f) + i - Z.to_nat (Field.grid_size f))%nat
      with i by lia.
    rewrite lookup_app_l by (by rewrite length_fmap, length_valid_coords).
    rewrite line_lookup by done. simpl. by rewrite line_lookup.
Qed.

Lemma get_groups_lookup_diagonals f (k : nat) :
  (k < Z.to_nat (Field.grid_size f))%nat →
  TicTacToeWinValidator._get_groups f
      !! (2 * Z.to_nat (Field.grid_size f))%nat ≫= (.!! k)
    = Some (Z.of_nat k + 1, Z.of_nat k + 1)
  ∧ TicTacToeWinValidator._get_groups f
      !! (2 * Z.to_nat (Field.grid_size f) + 1)%nat ≫= (.!! k)
    = Some (Z.of_nat k + 1, Field.grid_size f - (Z.of_nat k + 1) + 1).
Proof.
  intros Hk. unfold TicTacToeWinValidator._get_groups.
  rewrite !lookup_app_r
    by (rewrite ?length_app, ?length_fmap, ?length_valid_coords; lia).
  rewrite !length_fmap, !length_valid_coords.
  replace (2 * Z.to_nat (Field.grid_size f) - Z.to_nat (Field.grid_size f)
           - Z.to_nat (Field.grid_size f))%nat with 0%nat by lia.
  replace (2 * Z.to_nat (Field.grid_size f) + 1 - Z.to_nat (Field.grid_size f)
           - Z.to_nat (Field.grid_size f))%nat with 1%nat by lia.
  simpl. by rewrite !line_lookup.
Qed.

End groups.

(** ** The two loops of [get_winner] *)

Section get_winner_facts.
Implicit Types (f : Field.t) (g : list (Z * Z)) (c : Z * Z) (s : string).
Implicit Types (h moves : list GridGameMove) (mv : GridGameMove).

Lemma are_all_equal_to_basis_spec f s g :
  Field.are_all_equal_to_basis f s g = true ↔ full_of f s g.
Proof.
  unfold Field.are_all_equal_to_basis, full_of. rewrite forallb_forall.
  split; intros Hall c Hc.
  - apply list_elem_of_In, Hall in Hc. by apply bool_decide_eq_true in Hc.
  - apply bool_decide_eq_true, Hall. by apply list_elem_of_In.
Qed.

Lemma move_matches_spec g s mv :
  TicTacToeWinValidator.move_matches g s mv = true ↔
  cell mv ∈ g ∧ symbol mv = s.
Proof.
  unfold TicTacToeWinValidator.move_matches.
  by rewrite andb_true_iff, !bool_decide_eq_true.
Qed.

Lemma move_matches_false g s mv :
  TicTacToeWinValidator.move_matches g s mv = false ↔
  ¬ (cell mv ∈ g ∧ symbol mv = s).
Proof. by rewrite <- move_matches_spec, not_true_iff_false. Qed.

(** The inner loop stops at the first move that matches. *)
Lemma scan_moves_first moves mv rest g s :
  (∀ mv', mv' ∈ moves → ¬ (cell mv' ∈ g ∧ symbol mv' = s)) →
  cell mv ∈ g → symbol mv = s →
  TicTacToeWinValidator.scan_moves (moves ++ mv :: rest) g s
  = Ok (Some (player mv)).
Proof.
  intros Hnone Hcell Hsym. induction moves as [|mv' moves IH]; simpl.
  - by rewrite (proj2 (move_matches_spec g s mv)).
  - rewrite (proj2 (move_matches_false g s mv'))
      by (apply Hnone, list_elem_of_here).
    apply IH. intros mv'' Hin. by apply Hnone, list_elem_of_further.
Qed.

(** Without a matching move the inner loop ends in the assertion. *)
Lemma scan_moves_none moves g s :
  (∀ mv, mv ∈ moves → ¬ (cell mv ∈ g ∧ symbol mv = s)) →
  TicTacToeWinValidator.scan_moves moves g s = Raise AssertionError.
Proof.
  induction moves as [|mv moves IH]; intros Hnone; simpl; [done|].
  rewrite (proj2 (move_matches_false g s mv))
    by (apply Hnone, list_elem_of_here).
  apply IH. intros mv' Hin. by apply Hnone, list_elem_of_further.
Qed.

(** The inner loop returns a player or ends in the assertion. *)
Lemma scan_moves_cases moves g s :
  (∃ mv, mv ∈ moves ∧ cell mv ∈ g ∧ symbol mv = s
         ∧ TicTacToeWinValidator.scan_moves moves g s = Ok (Some (player mv)))
  ∨ ((∀ mv, mv ∈ moves → ¬ (cell mv ∈ g ∧ symbol mv = s))
     ∧ TicTacToeWinValidator.scan_moves moves g s = Raise AssertionError).
Proof.
  induction moves as [|mv moves IH]; simpl.
  { right. split; [|done]. by intros mv ?%elem_of_nil. }
  destruct (TicTacToeWinValidator.move_matches g s mv) eqn:Hmatch.
  - left. apply move_matches_spec in Hmatch as [Hcell Hsym].
    exists mv. split; [apply list_elem_of_here|done].
  - apply move_matches_false in Hmatch.
    destruct IH as [(mv' & Hin & Hcell & Hsym & Hscan)|[Hnone Hscan]].
    + left. exists mv'. split; [by apply list_elem_of_further|done].
    + right. split; [|done]. intros mv' [->|Hin]%elem_of_cons; auto.
Qed.

(** One round of the outer loop, once [group[0]] was read on the grid. *)
Lemma scan_groups_cons f h c0 g rest :
  Field.is_within_bounds f c0 = true →
  TicTacToeWinValidator.scan_groups f h ((c0 :: g) :: rest) =
    match Field.occupied_cells f !! c0 with
    | Some b =>
        if Field.are_all_equal_to_basis f b (c0 :: g)
        then TicTacToeWinValidator.scan_moves (reverse h) (c0 :: g) b
        else TicTacToeWinValidator.scan_groups f h rest
    | None => TicTacToeWinValidator.scan_groups f h rest
    end.
Proof.
  intros Hb. cbn [TicTacToeWinValidator.scan_groups].
  unfold TicTacToeWinValidator.first_cell. cbn [lookup list_lookup].
  by rewrite bind_Ok, get_symbol_at_in_bounds, bind_Ok.
Qed.

(** One round of the outer loop on a group that is not empty and lies on
    the grid. *)
Lemma scan_groups_step f h g rest :
  g ≠ [] →
  (∀ c, c ∈ g → Field.is_within_bounds f c = true) →
  (∀ s, full_of f s g →
        TicTacToeWinValidator.scan_groups f h (g :: rest)
        = TicTacToeWinValidator.scan_moves (reverse h) g s)
  ∧ (¬ winning_group f g →
     TicTacToeWinValidator.scan_groups f h (g :: rest)
     = TicTacToeWinValidator.scan_groups f h rest).
Proof.
  intros Hne Hb. destruct g as [|c0 g]; [done|].
  rewrite scan_groups_cons by (apply Hb, list_elem_of_here). split.
  - intros s Hfull. rewrite (Hfull c0) by apply list_elem_of_here.
    by rewrite (proj2 (are_all_equal_to_basis_spec f s (c0 :: g))).
  - intros Hnot. destruct (Field.occupied_cells f !! c0) as [b|]; [|done].
    destruct (Field.are_all_equal_to_basis f b (c0 :: g)) eqn:Hall; [|done].
    destruct Hnot. exists b. by apply are_all_equal_to_basis_spec.
Qed.

(** The outer loop answers for the first winning group. *)
Lemma scan_groups_first f h before g after s :
  (∀ g', g' ∈ before ++ g :: after →
         g' ≠ [] ∧ ∀ c, c ∈ g' → Field.is_within_bounds f c = true) →
  (∀ g', g' ∈ before → ¬ winning_group f g') →
  full_of f s g →
  TicTacToeWinValidator.scan_groups f h (before ++ g :: after)
  = TicTacToeWinValidator.scan_moves (reverse h) g s.
Proof.
  intros Hok Hnone Hfull. induction before as [|g0 before IH].
  - destruct (Hok g) as [Hne Hb]; [apply list_elem_of_here|].
    by apply (scan_groups_step f h g after Hne Hb).
  - destruct (Hok g0) as [Hne Hb]; [apply list_elem_of_here|].
    rewrite <- app_comm_cons.
    rewrite (proj2 (scan_groups_step f h g0 _ Hne Hb))
      by (apply Hnone, list_elem_of_here).
    apply IH.
    + intros g' Hin. by apply Hok, list_elem_of_further.
    + intros g' Hin. by apply Hnone, list_elem_of_further.
Qed.

Lemma scan_groups_none f h groups :
  (∀ g, g ∈ groups →
        g ≠ [] ∧ ∀ c, c ∈ g → Field.is_within_bounds f c = true) →
  (∀ g, g ∈ groups → ¬ winning_group f g) →
  TicTacToeWinValidator.scan_groups f h groups = Ok None.
Proof.
  intros Hok Hnone. induction groups as [|g groups IH]; [done|].
  destruct (Hok g) as [Hne Hb]; [apply list_elem_of_here|].
  rewrite (proj2 (scan_groups_step f h g _ Hne Hb))
    by (apply Hnone, list_elem_of_here).
  apply IH; intros g' Hin; [apply Hok|apply Hnone]; by apply list_elem_of_further.
Qed.

(** The outer loop returns, or ends in the assertion of the inner loop. *)
Lemma scan_groups_cases f h groups :
  (∀ g, g ∈ groups →
        g ≠ [] ∧ ∀ c, c ∈ g → Field.is_within_bounds f c = true) →
  (∃ w, TicTacToeWinValidator.scan_groups f h groups = Ok w)
  ∨ TicTacToeWinValidator.scan_groups f h groups = Raise AssertionError.
Proof.
  intros Hok. induction groups as [|g groups IH]; [left; by exists None|].
  destruct (Hok g) as [Hne Hb]; [apply list_elem_of_here|].
  assert ((∃ w, TicTacToeWinValidator.scan_groups f h groups = Ok w)
          ∨ TicTacToeWinValidator.scan_groups f h groups = Raise AssertionError)
    as IH' by (apply IH; intros g' Hin; by apply Hok, list_elem_of_further).
  destruct g as [|c0 g]; [done|].
  rewrite scan_groups_cons by (apply Hb, list_elem_of_here).
  destruct (Field.occupied_cells f !! c0) as [b|]; [|done].
  destruct (Field.are_all_equal_to_basis f b (c0 :: g)); [|done].
  destruct (scan_moves_cases (reverse h) (c0 :: g) b)
    as [(mv & _ & _ & _ & ->)|[_ ->]]; [left; eauto|by right].
Qed.

Lemma groups_usable f :
  1 ≤ Field.grid_size f →
  ∀ g, g ∈ TicTacToeWinValidator._get_groups f →
       g ≠ [] ∧ ∀ c, c ∈ g → Field.is_within_bounds f c = true.
Proof.
  intros Hsize g Hg. split; [by eapply group_nonempty|].
  intros c Hc. by eapply group_in_bounds.
Qed.

Lemma get_winner_first_group f h before g after s :
  1 ≤ Field.grid_size f →
  TicTacToeWinValidator._get_groups f = before ++ g :: after →
  (∀ g', g' ∈ before → ¬ winning_group f g') →
  full_of f s g →
  TicTacToeWinValidator.get_winner f h
  = TicTacToeWinValidator.scan_moves (reverse h) g s.
Proof.
  intros Hsize Hgroups Hnone Hfull. unfold TicTacToeWinValidator.get_winner.
  rewrite Hgroups. apply scan_groups_first; [|done..].
  rewrite <- Hgroups. by apply groups_usable.
Qed.

End get_winner_facts.

(** ** The line validator *)

(** C5, amended: for grid_size ≥ 0 the line validator enumerates exactly
    2·grid_size + 2 groups of grid_size cells each: the rows, then the
    columns, then the backslash diagonal (k, k), then the forward-slash
    diagonal (k, grid_size - k + 1).  For grid_size ≥ 1 it answers for the
    first group in this order that is fully occupied by a single symbol,
    whatever the later groups hold: it returns the player of the most
    recent move of the history that put that symbol into that group, and
    fails by its assertion when the history has no such move; it returns
    no winner when no group is fully occupied by one symbol.  For
    grid_size ≤ 0 only the two diagonals are enumerated, both empty, and
    [get_winner] raises [IndexError]. *)
Theorem line_validator_first_winning_group
    (f : Field.t) (h : list GridGameMove) :
  (0 ≤ Field.grid_size f →
   Z.of_nat (length (TicTacToeWinValidator._get_groups f))
     = 2 * Field.grid_size f + 2
   ∧ (∀ g, g ∈ TicTacToeWinValidator._get_groups f →
           Z.of_nat (length g) = Field.grid_size f)
   ∧ (∀ i j : nat,
        Z.of_nat i < Field.grid_size f → Z.of_nat j < Field.grid_size f →
        TicTacToeWinValidator._get_groups f !! i ≫= (.!! j)
          = Some (Z.of_nat i + 1, Z.of_nat j + 1)
        ∧ TicTacToeWinValidator._get_groups f
            !! (Z.to_nat (Field.grid_size f) + i)%nat ≫= (.!! j)
          = Some (Z.of_nat j + 1, Z.of_nat i + 1))
   ∧ (∀ k : nat,
        Z.of_nat k < Field.grid_size f →
        TicTacToeWinValidator._get_groups f
            !! (2 * Z.to_nat (Field.grid_size f))%nat ≫= (.!! k)
          = Some (Z.of_nat k + 1, Z.of_nat k + 1)
        ∧ TicTacToeWinValidator._get_groups f
            !! (2 * Z.to_nat (Field.grid_size f) + 1)%nat ≫= (.!! k)
          = Some (Z.of_nat k + 1, Field.grid_size f - (Z.of_nat k + 1) + 1)))
  ∧ (1 ≤ Field.grid_size f →
     (∀ before g after s,
        TicTacToeWinValidator._get_groups f = before ++ g :: after →
        (∀ g', g' ∈ before → ¬ winning_group f g') →
        full_of f s g →
        (∀ older mv newer,
           h = older ++ mv :: newer →
           cell mv ∈ g → symbol mv = s →
           (∀ mv', mv' ∈ newer → ¬ (cell mv' ∈ g ∧ symbol mv' = s)) →
           TicTacToeWinValidator.get_winner f h = Ok (Some (player mv)))
        ∧ (∀ p,
             (∃ mv, mv ∈ h ∧ cell mv ∈ g ∧ symbol mv = s) →
             (∀ mv, mv ∈ h → symbol mv = s → player mv = p) →
             TicTacToeWinValidator.get_winner f h = Ok (Some p))
        ∧ ((∀ mv, mv ∈ h → ¬ (cell mv ∈ g ∧ symbol mv = s)) →
           TicTacToeWinValidator.get_winner f h = Raise AssertionError))
     ∧ ((∀ g, g ∈ TicTacToeWinValidator._get_groups f → ¬ winning_group f g) →
        TicTacToeWinValidator.get_winner f h = Ok None))
  ∧ (Field.grid_size f ≤ 0 →
     TicTacToeWinValidator._get_groups f = [[]; []]
     ∧ TicTacToeWinValidator.get_winner f h = Raise IndexError).
Proof.
  split; [|split].
  - intros Hsize. split; [|split; [|split]].
    + rewrite get_groups_length. lia.
    + intros g Hg. rewrite (group_length f g Hg). lia.
    + intros i j Hi Hj. apply get_groups_lookup; lia.
    + intros k Hk. apply get_groups_lookup_diagonals; lia.
  - intros Hsize. split.
    + intros before g after s Hgroups Hnone Hfull.
      rewrite (get_winner_first_group f h before g after s) by done.
      split; [|split].
      * intros older mv newer -> Hcell Hsym Hnewer.
        rewrite reverse_app, reverse_cons, <- app_assoc. simpl.
        apply scan_moves_first; [|done..].
        intros mv' Hin. rewrite elem_of_reverse in Hin. exact (Hnewer mv' Hin).
      * intros p (mv & Hin & Hcell & Hsym) Howner.
        destruct (scan_moves_cases (reverse h) g s)
          as [(mv' & Hin' & _ & Hsym' & ->)|[Hno _]].
        -- rewrite elem_of_reverse in Hin'. by rewrite (Howner mv' Hin' Hsym').
        -- destruct (Hno mv); [by apply elem_of_reverse|done].
      * intros Hno. apply scan_moves_none.
        intros mv Hin. rewrite elem_of_reverse in Hin. exact (Hno mv Hin).
    + intros Hnone. apply scan_groups_none; [by apply groups_usable|done].
  - intros Hsize.
    assert (TicTacToeWinValidator._get_groups f = [[]; []]) as Hgroups
      by (unfold TicTacToeWinValidator._get_groups, Field.valid_coords;
          by rewrite seqZ_nil).
    split; [done|]. unfold TicTacToeWinValidator.get_winner. by rewrite Hgroups.
Qed.

(** C6: once a winning group is found, [get_winner] walks the move history
    from the most recent move backwards and returns the player of the first
    move whose cell lies in the group and whose symbol is the winning one;
    when no move of the history matches, it fails by its assertion and
    returns no player. *)
Theorem winner_resolved_by_reverse_scan
    (f : Field.t) (h : list GridGameMove)
    (before : list (list (Z * Z))) (g : list (Z * Z))
    (after : list (list (Z * Z))) (s : string) :
  1 ≤ Field.grid_size f →
  TicTacToeWinValidator._get_groups f = before ++ g :: after →
  (∀ g', g' ∈ before → ¬ winning_group f g') →
  full_of f s g →
  (∀ older mv newer,
     h = older ++ mv :: newer →
     cell mv ∈ g → symbol mv = s →
     (∀ mv', mv' ∈ newer → ¬ (cell mv' ∈ g ∧ symbol mv' = s)) →
     TicTacToeWinValidator.get_winner f h = Ok (Some (player mv)))
  ∧ ((∀ mv, mv ∈ h → ¬ (cell mv ∈ g ∧ symbol mv = s)) →
     TicTacToeWinValidator.get_winner f h = Raise AssertionError).
Proof.
  intros Hsize Hgroups Hnone Hfull.
  rewrite (get_winner_first_group f h before g after s) by done. split.
  - intros older mv newer -> Hcell Hsym Hnewer.
    rewrite reverse_app, reverse_cons, <- app_assoc. simpl.
    apply scan_moves_first; [|done..].
    intros mv' Hin. rewrite elem_of_reverse in Hin. exact (Hnewer mv' Hin).
  - intros Hno. apply scan_moves_none.
    intros mv Hin. rewrite elem_of_reverse in Hin. exact (Hno mv Hin).
Qed.

(** In a consistent state every occupied cell has its move in the history,
    so the assertion of [get_winner] cannot fail. *)
Lemma scan_groups_returns (f : Field.t) (h : list GridGameMove)
    (groups : list (list (Z * Z))) :
  (∀ g, g ∈ groups →
        g ≠ [] ∧ ∀ c, c ∈ g → Field.is_within_bounds f c = true) →
  (∀ c s, Field.occupied_cells f !! c = Some s →
          ∃ mv, mv ∈ h ∧ cell mv = c ∧ symbol mv = s) →
  ∃ w, TicTacToeWinValidator.scan_groups f h groups = Ok w.
Proof.
  intros Hok Hmoves. induction groups as [|g groups IH]; [by exists None|].
  destruct (Hok g) as [Hne Hb]; [apply list_elem_of_here|].
  assert (∃ w, TicTacToeWinValidator.scan_groups f h groups = Ok w) as IH'
    by (apply IH; intros g' Hin; by apply Hok, list_elem_of_further).
  destruct g as [|c0 g]; [done|].
  rewrite scan_groups_cons by (apply Hb, list_elem_of_here).
  destruct (Field.occupied_cells f !! c0) as [b|] eqn:Hc0; [|done].
  destruct (Field.are_all_equal_to_basis f b (c0 :: g)); [|done].
  destruct (scan_moves_cases (reverse h) (c0 :: g) b)
    as [(mv & _ & _ & _ & ->)|[Hnone _]]; [eauto|].
  destruct (Hmoves c0 b Hc0) as (mv & Hin & Hcell & Hsym).
  destruct (Hnone mv); [by apply elem_of_reverse|].
  split; [|done]. rewrite Hcell. apply list_elem_of_here.
Qed.

Lemma consistent_winner_returns (m : GridGameModel TicTacToeWinValidator) :
  consistent m →
  1 ≤ GridGameModel.grid_size m →
  ∃ w, GridGameModel.winner m = Ok w.
Proof.
  intros [_ _ _ _ Hmoves] Hsize.
  apply scan_groups_returns; [by apply groups_usable|done].
Qed.

(** On a board of positive size [place_symbol] always returns a feedback. *)
Lemma place_symbol_total (m : GridGameModel TicTacToeWinValidator)
    (s : string) (c : Z * Z) :
  reachable m →
  1 ≤ GridGameModel.grid_size m →
  ∃ feedback m', GridGameModel.place_symbol m s c = Ok (feedback, m').
Proof.
  intros Hreach Hsize.
  destruct (consistent_winner_returns m (reachable_consistent m Hreach) Hsize)
    as [w Hw].
  destruct (reachable_symbol_choices m Hreach) as [s' Hs'].
  unfold GridGameModel.place_symbol, GridGameModel.is_game_over.
  rewrite Hw, bind_Ok.
  destruct w as [p|]; [by eauto|]. rewrite bind_Ok.
  destruct (negb (Field.has_unoccupied_cell (_field m))); [by eauto|].
  rewrite Hs', bind_Ok. case_bool_decide; [by eauto|].
  destruct (Field.is_within_bounds (_field m) c) eqn:Hb; simpl; [|by eauto].
  rewrite get_symbol_at_in_bounds, bind_Ok by done.
  destruct (Field.occupied_cells (_field m) !! c); eauto.
Qed.

(** ** The queries [winner] and [is_game_over] *)

Lemma elem_of_cells (f : Field.t) (c : Z * Z) :
  c ∈ Field.cells f ↔ Field.is_within_bounds f c = true.
Proof.
  unfold Field.cells. rewrite list_elem_of_bind, is_within_bounds_spec.
  destruct c as [row col]. simpl. split.
  - intros (row' & Hc & Hrow). apply list_elem_of_fmap in Hc as (col' & [= -> ->] & Hcol).
    by rewrite !elem_of_valid_coords in *.
  - intros [Hrow Hcol]. exists row. rewrite list_elem_of_fmap, !elem_of_valid_coords.
    split; [|done]. exists col. by rewrite elem_of_valid_coords.
Qed.

Lemma has_unoccupied_cell_spec (f : Field.t) :
  Field.has_unoccupied_cell f = true ↔
  ∃ c, Field.is_within_bounds f c = true ∧ Field.occupied_cells f !! c = None.
Proof.
  unfold Field.has_unoccupied_cell. rewrite existsb_exists.
  split; intros (c & Hc & Hfree); exists c.
  - by rewrite <- elem_of_cells, list_elem_of_In, <- (bool_decide_eq_true _).
  - by rewrite <- list_elem_of_In, elem_of_cells, bool_decide_eq_true.
Qed.

Lemma has_unoccupied_cell_false (f : Field.t) :
  Field.has_unoccupied_cell f = false ↔
  ∀ c, Field.is_within_bounds f c = true →
       is_Some (Field.occupied_cells f !! c).
Proof.
  rewrite <- not_true_iff_false, has_unoccupied_cell_spec. split.
  - intros Hnone c Hb. destruct (Field.occupied_cells f !! c) eqn:Hc; [done|].
    destruct Hnone. by exists c.
  - intros Hall (c & Hb & Hc). apply Hall in Hb as [s Hs]. congruence.
Qed.

Section queries.
Context {V : Type} `{!WinValidator V}.
Implicit Types (m : GridGameModel V).

(** C7: [is_game_over] is true exactly when [winner] is not none or the
    field has no unoccupied cell.  Both queries are computed from the
    field, the move history and the validator alone, with nothing cached in
    the model, so asking again on an unchanged state gives the same answer;
    a query returns a value and no new state. *)
Theorem game_over_iff_winner_or_full m :
  (GridGameModel.is_game_over m = Ok true ↔
   ∃ w, GridGameModel.winner m = Ok w
        ∧ (w ≠ None
           ∨ ∀ c, Field.is_within_bounds (_field m) c = true →
                  is_Some (GridGameModel.occupied_cells m !! c)))
  ∧ (GridGameModel.is_game_over m = Ok false ↔
     GridGameModel.winner m = Ok None
     ∧ ∃ c, Field.is_within_bounds (_field m) c = true
            ∧ GridGameModel.occupied_cells m !! c = None)
  ∧ (∀ e, GridGameModel.is_game_over m = Raise e ↔
          GridGameModel.winner m = Raise e)
  ∧ (∀ m',
       _field m' = _field m →
       _move_history m' = _move_history m →
       _win_validator m' = _win_validator m →
       GridGameModel.winner m' = GridGameModel.winner m
       ∧ GridGameModel.is_game_over m' = GridGameModel.is_game_over m).
Proof.
  unfold GridGameModel.is_game_over, GridGameModel.occupied_cells.
  split; [|split; [|split]].
  - destruct (GridGameModel.winner m) as [[p|]|e]; simpl.
    + split; [|done]. intros _. exists (Some p). split; [done|by left].
    + rewrite Ok_inj_iff, negb_true_iff, has_unoccupied_cell_false.
      split; [intros Hfull; exists None; auto|].
      by intros (w & [= <-] & [?|?]).
    + split; [done|]. by intros (w & ? & _).
  - destruct (GridGameModel.winner m) as [[p|]|e]; simpl.
    + split; [done|]. by intros [? _].
    + rewrite Ok_inj_iff, negb_false_iff, has_unoccupied_cell_spec. tauto.
    + split; [done|]. by intros [? _].
  - intros e. destruct (GridGameModel.winner m) as [[p|]|e']; simpl; [split; discriminate..|split; congruence].
  - intros m' Hf Hh Hv. unfold GridGameModel.winner. by rewrite Hf, Hh, Hv.
Qed.

End queries.

(** ** The read of [group[0]] *)

(** C10, amended: for every field with grid_size ≥ 1 every group of the
    line validator is non-empty, so the read of [group[0]] is always in
    range and lies on the grid; [get_winner] then returns, or fails only by
    its own assertion, and it always returns in a state reached through the
    model.  For grid_size = 0 the two diagonals are the only groups, both
    are empty, and [get_winner] fails on [group[0]]; the constructor accepts
    any grid size, so such a model can be constructed. *)
Theorem group_first_cell_read :
  (∀ (f : Field.t) (h : list GridGameMove),
     1 ≤ Field.grid_size f →
     (∀ g, g ∈ TicTacToeWinValidator._get_groups f →
           g ≠ []
           ∧ ∃ c, TicTacToeWinValidator.first_cell g = Ok c
                  ∧ Field.get_symbol_at f c = Ok (Field.occupied_cells f !! c))
     ∧ ((∃ w, TicTacToeWinValidator.get_winner f h = Ok w)
        ∨ TicTacToeWinValidator.get_winner f h = Raise AssertionError))
  ∧ (∀ m : GridGameModel TicTacToeWinValidator,
       reachable m → 1 ≤ GridGameModel.grid_size m →
       ∃ w, GridGameModel.winner m = Ok w)
  ∧ (∀ (f : Field.t) (h : list GridGameMove),
       Field.grid_size f = 0 →
       TicTacToeWinValidator._get_groups f = [[]; []]
       ∧ TicTacToeWinValidator.get_winner f h = Raise IndexError)
  ∧ (∀ (grid_size : Z) (player_symbols : list string) (count : Z),
       2 ≤ count → NoDup player_symbols →
       Z.of_nat (length player_symbols) = count →
       ∃ m : GridGameModel TicTacToeWinValidator,
         GridGameModel.__init__ grid_size player_symbols count TicTacToe = Ok m
         ∧ GridGameModel.grid_size m = grid_size
         ∧ (grid_size = 0 → GridGameModel.winner m = Raise IndexError)).
Proof.
  assert (∀ (f : Field.t) (h : list GridGameMove),
    Field.grid_size f = 0 →
    TicTacToeWinValidator._get_groups f = [[]; []]
    ∧ TicTacToeWinValidator.get_winner f h = Raise IndexError) as Hzero.
  { intros f h Hsize.
    assert (TicTacToeWinValidator._get_groups f = [[]; []]) as Hgroups
      by (unfold TicTacToeWinValidator._get_groups, Field.valid_coords;
          by rewrite Hsize).
    split; [done|]. unfold TicTacToeWinValidator.get_winner. by rewrite Hgroups. }
  split; [|split; [|split; [done|]]].
  - intros f h Hsize. split.
    + intros g Hg. destruct (groups_usable f Hsize g Hg) as [Hne Hb].
      split; [done|]. destruct g as [|c0 g]; [done|]. exists c0.
      split; [done|]. apply get_symbol_at_in_bounds, Hb, list_elem_of_here.
    + apply scan_groups_cases. by apply groups_usable.
  - intros m Hreach Hsize. apply consistent_winner_returns; [|done].
    by apply reachable_consistent.
  - intros grid_size player_symbols count Hcount Hnd Hlen.
    destruct (init_cases grid_size player_symbols count TicTacToe)
      as [[_ Hbad]|[Hinit _]]; [destruct Hbad as [?|[?|?]]; [lia|done|lia]|].
    eexists. split; [exact Hinit|]. split; [done|].
    intros ->. by apply Hzero.
Qed.

(** * The statements at work on the sample games *)

Lemma reachable_place_symbols {V : Type} `{!WinValidator V}
    (m : GridGameModel V) (calls : list (string * (Z * Z)))
    (feedbacks : list Feedback) (m' : GridGameModel V) :
  reachable m →
  place_symbols m calls = Ok (feedbacks, m') →
  reachable m'.
Proof.
  revert m feedbacks. induction calls as [|[s c] calls IH];
    intros m feedbacks Hreach Hrun; simpl in Hrun; [by simplify_eq|].
  inv_bind Hrun as r Hr. inv_bind Hrun as rs Hrs. simplify_eq.
  destruct r as [feedback m1], rs as [feedbacks' m2]. simpl in *.
  eapply IH; [|done]. by eapply reachable_place.
Qed.

Lemma sample_after_reachable (calls : list (string * (Z * Z))) :
  reachable (sample_after calls).
Proof.
  unfold sample_after.
  destruct sample_start as [m0|e] eqn:Hstart; [|by vm_compute in Hstart].
  assert (reachable m0) as Hm0 by (by eapply reachable_init).
  destruct (place_symbols m0 calls) as [[feedbacks m']|e] eqn:Hrun; [|done].
  by eapply reachable_place_symbols.
Qed.

(** After the game is won, a call with an out-of-bounds cell is answered
    GAME_OVER; a wrong symbol is detected before the bounds and the bounds
    before the occupancy. *)
Lemma place_symbol_rejection_order_witness :
  GridGameModel.place_symbol sample_won "O" (0, 9) = Ok (GAME_OVER, sample_won)
  ∧ GridGameModel.place_symbol sample_opened "X" (0, 9)
    = Ok (INVALID_SYMBOL, sample_opened)
  ∧ GridGameModel.place_symbol sample_opened "O" (4, 1)
    = Ok (OUT_OF_BOUNDS, sample_opened)
  ∧ GridGameModel.place_symbol sample_opened "O" (1, 1)
    = Ok (OCCUPIED, sample_opened).
Proof.
  split; [|split; [|split]].
  - apply (proj1 (place_symbol_rejection_order sample_won "O" (0, 9))).
    vm_compute. reflexivity.
  - apply (proj1 (proj2 (place_symbol_rejection_order sample_opened "X" (0, 9)))
             ["O"%string]);
      [vm_compute; reflexivity..|].
    intros Hin. apply list_elem_of_singleton in Hin. discriminate.
  - apply (proj1 (proj2 (proj2
             (place_symbol_rejection_order sample_opened "O" (4, 1))))
             ["O"%string]);
      [vm_compute; reflexivity| vm_compute; reflexivity
      | apply list_elem_of_here | vm_compute; reflexivity].
  - apply (proj2 (proj2 (proj2
             (place_symbol_rejection_order sample_opened "O" (1, 1))))
             ["O"%string]);
      [vm_compute; reflexivity| vm_compute; reflexivity
      | apply list_elem_of_here | vm_compute; reflexivity|].
    exists "X"%string. vm_compute. reflexivity.
Defined.

(** O answers the opening in the centre. *)
Lemma place_symbol_valid_witness :
  GridGameModel.is_game_over sample_opened = Ok false
  ∧ ∃ m',
      GridGameModel.place_symbol sample_opened "O" (2, 2) = Ok (VALID, m')
      ∧ GridGameModel.occupied_cells m'
        = <[(2, 2) := "O"%string]> (GridGameModel.occupied_cells sample_opened)
      ∧ _move_history m' = _move_history sample_opened ++ [mkMove 2 "O" (2, 2)]
      ∧ GridGameModel.current_player m' = 1.
Proof.
  split; [vm_compute; reflexivity|].
  destruct (place_symbol_valid sample_opened "O" (2, 2) ["O"%string])
    as (m' & Hplace & Hocc & _ & Hhist & Hturn & _);
    [vm_compute; reflexivity| vm_compute; reflexivity
    | apply list_elem_of_here | vm_compute; reflexivity
    | vm_compute; reflexivity |].
  exists m'. split; [exact Hplace|]. split; [exact Hocc|].
  split; [exact Hhist|]. rewrite Hturn. vm_compute. reflexivity.
Defined.

(** C3 as stated fails: with O to move, X's symbol on the occupied corner is
    answered INVALID_SYMBOL; and once X has won, O's own symbol on the
    occupied corner is answered GAME_OVER. *)
Lemma occupied_cell_counterexample :
  reachable sample_opened
  ∧ GridGameModel.occupied_cells sample_opened !! (1, 1) = Some "X"%string
  ∧ GridGameModel.place_symbol sample_opened "X" (1, 1)
    = Ok (INVALID_SYMBOL, sample_opened)
  ∧ GridGameModel.place_symbol sample_opened "X" (1, 1)
    ≠ Ok (OCCUPIED, sample_opened)
  ∧ reachable sample_won
  ∧ GridGameModel.occupied_cells sample_won !! (1, 1) = Some "X"%string
  ∧ GridGameModel.place_symbol sample_won "O" (1, 1)
    = Ok (GAME_OVER, sample_won)
  ∧ GridGameModel.place_symbol sample_won "O" (1, 1)
    ≠ Ok (OCCUPIED, sample_won).
Proof.
  assert (GridGameModel.place_symbol sample_opened "X" (1, 1)
          = Ok (INVALID_SYMBOL, sample_opened)) as Hopened
    by (vm_compute; reflexivity).
  assert (GridGameModel.place_symbol sample_won "O" (1, 1)
          = Ok (GAME_OVER, sample_won)) as Hwon
    by (vm_compute; reflexivity).
  split; [apply sample_after_reachable|].
  split; [vm_compute; reflexivity|].
  split; [exact Hopened|].
  split; [rewrite Hopened; discriminate|].
  split; [apply sample_after_reachable|].
  split; [vm_compute; reflexivity|].
  split; [exact Hwon|].
  rewrite Hwon. discriminate.
Qed.

(** With O to move, O's own symbol on the occupied corner is answered
    OCCUPIED. *)
Lemma occupied_cell_rejected_witness :
  reachable sample_opened
  ∧ GridGameModel.is_game_over sample_opened = Ok false
  ∧ GridGameModel.place_symbol sample_opened "O" (1, 1)
    = Ok (OCCUPIED, sample_opened).
Proof.
  split; [apply sample_after_reachable|].
  split; [vm_compute; reflexivity|].
  apply (occupied_cell_rejected sample_opened "O" (1, 1) ["O"%string]);
    [apply sample_after_reachable | vm_compute; reflexivity
    | vm_compute; reflexivity | apply list_elem_of_here |].
  exists "X"%string. vm_compute. reflexivity.
Defined.

(** Nothing can be placed after a win or on a full board. *)
Lemma terminal_lockout_witness :
  GridGameModel.is_game_over sample_won = Ok true
  ∧ GridGameModel.winner sample_won = Ok (Some 1)
  ∧ GridGameModel.is_game_over sample_drawn = Ok true
  ∧ GridGameModel.winner sample_drawn = Ok None
  ∧ (∀ s c, GridGameModel.place_symbol sample_won s c
            = Ok (GAME_OVER, sample_won))
  ∧ (∀ s c, GridGameModel.place_symbol sample_drawn s c
            = Ok (GAME_OVER, sample_drawn)).
Proof.
  assert (GridGameModel.is_game_over sample_won = Ok true) as Hwon
    by (vm_compute; reflexivity).
  assert (GridGameModel.is_game_over sample_drawn = Ok true) as Hdrawn
    by (vm_compute; reflexivity).
  split; [exact Hwon|]. split; [vm_compute; reflexivity|].
  split; [exact Hdrawn|]. split; [vm_compute; reflexivity|].
  split.
  - exact (proj1 (terminal_lockout sample_won Hwon)).
  - exact (proj1 (terminal_lockout sample_drawn Hdrawn)).
Defined.

(** The invariants on the won game: O is to move, five moves, five cells. *)
Lemma reachable_invariants_witness :
  reachable sample_won
  ∧ 1 ≤ GridGameModel.current_player sample_won
      ≤ GridGameModel.player_count sample_won
  ∧ length (_move_history sample_won)
    = size (GridGameModel.occupied_cells sample_won).
Proof.
  split; [apply sample_after_reachable|].
  apply (reachable_invariants sample_won), sample_after_reachable.
Defined.

(** C5 as stated fails: a field of grid size -1 has two groups and not
    2·(-1) + 2 = 0; on a field of grid size 0 [get_winner] raises instead of
    returning a winner or no winner; and on the 1 by 1 field whose only
    group is full of a symbol that no move placed, [get_winner] raises
    instead of returning a winner. *)
Lemma line_validator_counterexample :
  length (TicTacToeWinValidator._get_groups (Field.new (-1))) = 2%nat
  ∧ Z.of_nat (length (TicTacToeWinValidator._get_groups (Field.new (-1))))
    ≠ 2 * Field.grid_size (Field.new (-1)) + 2
  ∧ TicTacToeWinValidator.get_winner (Field.new 0) [] = Raise IndexError
  ∧ (∀ w, TicTacToeWinValidator.get_winner (Field.new 0) [] ≠ Ok w)
  ∧ TicTacToeWinValidator._get_groups orphan_field !! 0%nat = Some [(1, 1)]
  ∧ full_of orphan_field "X" [(1, 1)]
  ∧ TicTacToeWinValidator.get_winner orphan_field [] = Raise AssertionError
  ∧ (∀ w, TicTacToeWinValidator.get_winner orphan_field [] ≠ Ok w).
Proof.
  assert (TicTacToeWinValidator.get_winner (Field.new 0) [] = Raise IndexError)
    as Hzero by (vm_compute; reflexivity).
  assert (TicTacToeWinValidator.get_winner orphan_field [] = Raise AssertionError)
    as Horphan by (vm_compute; reflexivity).
  split; [vm_compute; reflexivity|].
  split; [vm_compute; discriminate|].
  split; [exact Hzero|].
  split; [intros w; rewrite Hzero; discriminate|].
  split; [vm_compute; reflexivity|].
  split; [apply are_all_equal_to_basis_spec; vm_compute; reflexivity|].
  split; [exact Horphan|].
  intros w. rewrite Horphan. discriminate.
Qed.

(** Both rows of the 2 by 2 field are complete and O moved last; the
    validator answers for the first row and returns player 1, who made the
    latest move in it. *)
Lemma line_validator_first_winning_group_witness :
  1 ≤ Field.grid_size two_rows_field
  ∧ Z.of_nat (length (TicTacToeWinValidator._get_groups two_rows_field)) = 6
  ∧ full_of two_rows_field "X" [(1, 1); (1, 2)]
  ∧ full_of two_rows_field "O" [(2, 1); (2, 2)]
  ∧ TicTacToeWinValidator.get_winner two_rows_field two_rows_history
    = Ok (Some 1).
Proof.
  assert (1 ≤ Field.grid_size two_rows_field) as Hsize
    by (vm_compute; discriminate).
  assert (full_of two_rows_field "X" [(1, 1); (1, 2)]) as Hfirst
    by (apply are_all_equal_to_basis_spec; vm_compute; reflexivity).
  destruct (line_validator_first_winning_group two_rows_field two_rows_history)
    as (Hgroups & Hwinner & _).
  destruct Hgroups as [Hcount _]; [vm_compute; discriminate|].
  destruct (Hwinner Hsize) as [Hfound _].
  split; [exact Hsize|]. split; [exact Hcount|]. split; [exact Hfirst|].
  split; [apply are_all_equal_to_basis_spec; vm_compute; reflexivity|].
  destruct (Hfound [] [(1, 1); (1, 2)]
              [[(2, 1); (2, 2)]; [(1, 1); (2, 1)]; [(1, 2); (2, 2)];
               [(1, 1); (2, 2)]; [(1, 2); (2, 1)]] "X"%string)
    as (Hlatest & _ & _); [vm_compute; reflexivity | | exact Hfirst |].
  { intros g' Hin. by apply elem_of_nil in Hin. }
  apply (Hlatest [mkMove 1 "X" (1, 1); mkMove 2 "O" (2, 1)]%string
           (mkMove 1 "X" (1, 2)) [mkMove 2 "O" (2, 2)]%string);
    [reflexivity | apply list_elem_of_further, list_elem_of_here
    | reflexivity |].
  intros mv' Hin [_ Hsym]. apply list_elem_of_singleton in Hin. subst mv'.
  discriminate.
Defined.

(** Two players filled the first row with the same symbol, player 2 last:
    the scan from the most recent move attributes the line to player 2.
    With an empty history the assertion fails. *)
Lemma winner_resolved_by_reverse_scan_witness :
  1 ≤ Field.grid_size shared_row_field
  ∧ full_of shared_row_field "X" [(1, 1); (1, 2)]
  ∧ TicTacToeWinValidator.get_winner shared_row_field shared_row_history
    = Ok (Some 2)
  ∧ TicTacToeWinValidator.get_winner shared_row_field [] = Raise AssertionError.
Proof.
  assert (1 ≤ Field.grid_size shared_row_field) as Hsize
    by (vm_compute; discriminate).
  assert (full_of shared_row_field "X" [(1, 1); (1, 2)]) as Hfull
    by (apply are_all_equal_to_basis_spec; vm_compute; reflexivity).
  assert (TicTacToeWinValidator._get_groups shared_row_field
          = [] ++ [(1, 1); (1, 2)]
               :: [[(2, 1); (2, 2)]; [(1, 1); (2, 1)]; [(1, 2); (2, 2)];
                   [(1, 1); (2, 2)]; [(1, 2); (2, 1)]]) as Hgroups
    by (vm_compute; reflexivity).
  assert (∀ g', g' ∈ @nil (list (Z * Z)) → ¬ winning_group shared_row_field g')
    as Hnone by (intros g' Hin; by apply elem_of_nil in Hin).
  split; [exact Hsize|]. split; [exact Hfull|]. split.
  - apply (proj1 (winner_resolved_by_reverse_scan shared_row_field
                    shared_row_history _ _ _ _ Hsize Hgroups Hnone Hfull)
             [mkMove 1 "X" (1, 1)] (mkMove 2 "X" (1, 2)) []);
      [reflexivity | apply list_elem_of_further, list_elem_of_here
      | reflexivity |].
    intros mv' Hin. by apply elem_of_nil in Hin.
  - apply (proj2 (winner_resolved_by_reverse_scan shared_row_field
                    [] _ _ _ _ Hsize Hgroups Hnone Hfull)).
    intros mv Hin. by apply elem_of_nil in Hin.
Defined.

(** The won game is over because of its winner, the drawn game because the
    board is full, and the opened game is not over. *)
Lemma game_over_iff_winner_or_full_witness :
  GridGameModel.is_game_over sample_won = Ok true
  ∧ GridGameModel.is_game_over sample_opened = Ok false.
Proof.
  split.
  - apply (proj1 (game_over_iff_winner_or_full sample_won)).
    exists (Some 1). split; [vm_compute; reflexivity|]. by left.
  - apply (proj1 (proj2 (game_over_iff_winner_or_full sample_opened))).
    split; [vm_compute; reflexivity|].
    exists (2, 2). split; vm_compute; reflexivity.
Defined.

(** One player, a repeated symbol and a symbol too few are refused; two
    players with two symbols are accepted. *)
Lemma constructor_contract_witness :
  GridGameModel.__init__ 3 ["X"]%string 1 TicTacToe = Raise ValueError
  ∧ GridGameModel.__init__ 3 ["X"; "X"]%string 2 TicTacToe = Raise ValueError
  ∧ GridGameModel.__init__ 3 ["X"; "O"]%string 3 TicTacToe = Raise ValueError
  ∧ ∃ m, GridGameModel.__init__ 3 ["X"; "O"]%string 2 TicTacToe = Ok m
         ∧ GridGameModel.current_player m = 1
         ∧ _player_to_symbol m !! 2 = Some "O"%string.
Proof.
  split; [|split; [|split]].
  - apply (proj1 (constructor_contract 3 ["X"]%string 1 TicTacToe)).
    left. lia.
  - apply (proj1 (constructor_contract 3 ["X"; "X"]%string 2 TicTacToe)).
    right; left. intros Hnd. apply NoDup_cons in Hnd as [Hnin _].
    apply Hnin, list_elem_of_here.
  - apply (proj1 (constructor_contract 3 ["X"; "O"]%string 3 TicTacToe)).
    right; right. simpl. lia.
  - destruct (proj2 (constructor_contract 3 ["X"; "O"]%string 2 TicTacToe))
      as (m & Hinit & _ & _ & _ & _ & Hturn & _ & Hsymbols & _).
    + intros [Hcount|[Hdup|Hlen]]; [lia| |simpl in Hlen; lia].
      apply Hdup. apply NoDup_cons. split.
      * intros Hin. apply list_elem_of_singleton in Hin. discriminate.
      * apply NoDup_singleton.
    + exists m. split; [exact Hinit|]. split; [exact Hturn|].
      apply Hsymbols. split; [lia|reflexivity].
Defined.

(** C10 as stated fails: on a 1 by 1 field holding a symbol that no move of
    the history placed, [get_winner] does not return. *)
Lemma get_winner_total_counterexample :
  1 ≤ Field.grid_size orphan_field
  ∧ TicTacToeWinValidator.get_winner orphan_field [] = Raise AssertionError
  ∧ ∀ w, TicTacToeWinValidator.get_winner orphan_field [] ≠ Ok w.
Proof.
  assert (TicTacToeWinValidator.get_winner orphan_field [] = Raise AssertionError)
    as Hraise by (vm_compute; reflexivity).
  split; [vm_compute; discriminate|]. split; [exact Hraise|].
  intros w. rewrite Hraise. discriminate.
Qed.

(** A model of grid size 0 is constructed, and its [winner] fails on the
    read of [group[0]]. *)
Lemma group_first_cell_read_witness :
  ∃ m : GridGameModel TicTacToeWinValidator,
    GridGameModel.__init__ 0 ["X"; "O"]%string 2 TicTacToe = Ok m
    ∧ GridGameModel.grid_size m = 0
    ∧ GridGameModel.winner m = Raise IndexError.
Proof.
  destruct (proj2 (proj2 (proj2 group_first_cell_read)) 0 ["X"; "O"]%string 2)
    as (m & Hinit & Hsize & Hwinner); [lia| |reflexivity|].
  - apply NoDup_cons. split; [|apply NoDup_singleton].
    intros Hin. apply list_elem_of_singleton in Hin. discriminate.
  - exists m. split; [exact Hinit|]. split; [exact Hsize|]. by apply Hwinner.
Defined.

(** * Further properties of the model *)

(** ** What a sequence of calls changes *)

Section calls.
Context {V : Type} `{!WinValidator V}.
Implicit Types (m : GridGameModel V) (s : string) (c : Z * Z).

Lemma next_player_mod m :
  1 ≤ GridGameModel.current_player m ≤ GridGameModel.player_count m →
  GridGameModel.next_player m
  = GridGameModel.current_player m `mod` GridGameModel.player_count m + 1.
Proof.
  intros Hturn. unfold GridGameModel.next_player. case_bool_decide as Hlast.
  - rewrite Z.mod_small by lia. done.
  - rewrite Hlast, Z.mod_same by lia. done.
Qed.

Lemma place_symbols_cons_inv m s c calls feedbacks m' :
  place_symbols m ((s, c) :: calls) = Ok (feedbacks, m') →
  ∃ feedback m1 rest,
    GridGameModel.place_symbol m s c = Ok (feedback, m1)
    ∧ place_symbols m1 calls = Ok (rest, m')
    ∧ feedbacks = feedback :: rest.
Proof.
  simpl. intros Hrun. inv_bind Hrun as r Hr. inv_bind Hrun as rs Hrs.
  destruct r as [feedback m1], rs as [rest m2]. simplify_eq. simpl in *.
  by exists feedback, m1, rest.
Qed.

Lemma accepted_cons feedback feedbacks :
  accepted (feedback :: feedbacks)
  = ((if decide (feedback = VALID) then 1 else 0) + accepted feedbacks)%nat.
Proof. unfold accepted. rewrite filter_cons. by case_decide. Qed.

(** X1: [place_symbol] answers VALID only when every check passed: the game
    was not over, the symbol is the one of the player to move, and the cell
    lies on the grid and was free. *)
Theorem valid_only_after_all_checks m s c m' :
  GridGameModel.place_symbol m s c = Ok (VALID, m') →
  GridGameModel.is_game_over m = Ok false
  ∧ GridGameModel.get_symbol_choices m (GridGameModel.current_player m)
    = Ok [s]
  ∧ Field.is_within_bounds (_field m) c = true
  ∧ GridGameModel.occupied_cells m !! c = None.
Proof.
  intros Hplace. apply place_symbol_Ok_inv in Hplace
    as [[Hne _]|(_ & _ & Hover & Hsym & Hb & Hfree)]; [done|].
  split; [done|]. split; [|done].
  unfold GridGameModel.get_symbol_choices, GridGameModel.current_player.
  by rewrite Hsym.
Qed.

Lemma place_symbol_configuration m s c feedback m' :
  GridGameModel.place_symbol m s c = Ok (feedback, m') →
  GridGameModel.grid_size m' = GridGameModel.grid_size m
  ∧ GridGameModel.player_count m' = GridGameModel.player_count m
  ∧ _player_to_symbol m' = _player_to_symbol m
  ∧ _symbol_to_player m' = _symbol_to_player m
  ∧ _win_validator m' = _win_validator m.
Proof.
  intros Hplace. by apply place_symbol_Ok_inv in Hplace
    as [[_ ->]|(_ & -> & _)].
Qed.

(** X2: no sequence of [place_symbol] calls changes the configuration: the
    grid size, the player count, the two player/symbol dictionaries and the
    win validator stay what the constructor made them. *)
Theorem configuration_never_changes m calls feedbacks m' :
  place_symbols m calls = Ok (feedbacks, m') →
  GridGameModel.grid_size m' = GridGameModel.grid_size m
  ∧ GridGameModel.player_count m' = GridGameModel.player_count m
  ∧ _player_to_symbol m' = _player_to_symbol m
  ∧ _symbol_to_player m' = _symbol_to_player m
  ∧ _win_validator m' = _win_validator m.
Proof.
  revert m feedbacks. induction calls as [|[s c] calls IH]; intros m feedbacks Hrun.
  - simpl in Hrun. by simplify_eq.
  - apply place_symbols_cons_inv in Hrun
      as (feedback & m1 & rest & Hplace & Hrest & ->).
    apply place_symbol_configuration in Hplace as (Hg & Hc & Hp & Hs & Hv).
    apply IH in Hrest as (Hg' & Hc' & Hp' & Hs' & Hv').
    by rewrite Hg', Hc', Hp', Hs', Hv'.
Qed.

(** X3: calls only add to the game: every cell occupied before is occupied
    by the same symbol afterwards, the old history is a prefix of the new
    one, and the history grows by exactly the number of VALID answers. *)
Theorem calls_only_add m calls feedbacks m' :
  place_symbols m calls = Ok (feedbacks, m') →
  GridGameModel.occupied_cells m ⊆ GridGameModel.occupied_cells m'
  ∧ _move_history m `prefix_of` _move_history m'
  ∧ length (_move_history m')
    = (length (_move_history m) + accepted feedbacks)%nat.
Proof.
  revert m feedbacks. induction calls as [|[s c] calls IH]; intros m feedbacks Hrun.
  - simpl in Hrun. simplify_eq. split; [done|]. split; [done|].
    unfold accepted. simpl. lia.
  - apply place_symbols_cons_inv in Hrun
      as (feedback & m1 & rest & Hplace & Hrest & ->).
    apply IH in Hrest as (Hocc & Hpre & Hlen).
    rewrite accepted_cons.
    apply place_symbol_Ok_inv in Hplace
      as [[Hne ->]|(-> & -> & _ & _ & _ & Hfree)].
    + rewrite decide_False by done. done.
    + rewrite decide_True by done. split; [|split].
      * etrans; [|exact Hocc]. by apply insert_subseteq.
      * etrans; [|exact Hpre]. by apply prefix_app_r.
      * rewrite Hlen. simpl. rewrite length_app. simpl. lia.
Qed.

(** X4: turns rotate: after calls of which [n] were answered VALID, the
    player to move is the one [n] places further round the table; rejected
    calls do not pass the turn. *)
Theorem turn_rotation m calls feedbacks m' :
  1 ≤ GridGameModel.current_player m ≤ GridGameModel.player_count m →
  place_symbols m calls = Ok (feedbacks, m') →
  GridGameModel.current_player m'
  = (GridGameModel.current_player m - 1 + Z.of_nat (accepted feedbacks))
      `mod` GridGameModel.player_count m + 1.
Proof.
  revert m feedbacks. induction calls as [|[s c] calls IH];
    intros m feedbacks Hturn Hrun.
  - simpl in Hrun. simplify_eq. unfold accepted. simpl.
    rewrite Z.add_0_r, Z.mod_small by lia. lia.
  - apply place_symbols_cons_inv in Hrun
      as (feedback & m1 & rest & Hplace & Hrest & ->).
    rewrite accepted_cons.
    apply place_symbol_Ok_inv in Hplace
      as [[Hne ->]|(-> & -> & _)].
    + rewrite decide_False by done. by apply IH.
    + rewrite decide_True by done.
      assert (GridGameModel.current_player (GridGameModel.commit_move m s c)
              = GridGameModel.current_player m
                  `mod` GridGameModel.player_count m + 1) as Hnext
        by (by rewrite <- next_player_mod).
      assert (GridGameModel.player_count (GridGameModel.commit_move m s c)
              = GridGameModel.player_count m) as Hcount by done.
      pose proof (Z.mod_pos_bound (GridGameModel.current_player m)
                    (GridGameModel.player_count m)) as Hbound.
      assert (1 ≤ GridGameModel.current_player (GridGameModel.commit_move m s c)
                ≤ GridGameModel.player_count (GridGameModel.commit_move m s c))
        as Hturn1 by (rewrite Hnext, Hcount; lia).
      rewrite (IH _ rest Hturn1 Hrest).
      rewrite Hnext, Hcount. f_equal.
      replace (GridGameModel.current_player m
                 `mod` GridGameModel.player_count m + 1 - 1
               + Z.of_nat (accepted rest))
        with (GridGameModel.current_player m
                `mod` GridGameModel.player_count m + Z.of_nat (accepted rest))
        by lia.
      rewrite Zplus_mod_idemp_l. f_equal. lia.
Qed.

End calls.

(** ** Players and their symbols *)

Lemma enumerate1_lookup_position {A : Type} (xs : list A) (k : Z) (x : A) :
  dict_of_items (enumerate1 xs) !! k = Some x ↔
  1 ≤ k ≤ Z.of_nat (length xs) ∧ xs !! Z.to_nat (k - 1) = Some x.
Proof.
  rewrite enumerate1_lookup. split.
  - intros (i & Hi & ->). pose proof (lookup_lt_Some _ _ _ Hi) as Hlt.
    split; [lia|]. by replace (Z.to_nat (Z.of_nat i + 1 - 1)) with i by lia.
  - intros ([Hk1 Hk2] & Hx). exists (Z.to_nat (k - 1)). split; [done|lia].
Qed.

Lemma enumerate1_inverse (xs : list string) (s : string) (k : Z) :
  NoDup xs →
  dict_of_items ((λ kv : Z * string, (kv.2, kv.1)) <$> enumerate1 xs) !! s
    = Some k
  ↔ dict_of_items (enumerate1 xs) !! k = Some s.
Proof.
  intros Hnd.
  assert (((λ kv : Z * string, (kv.2, kv.1)) <$> enumerate1 xs).*1 = xs) as Hswap.
  { rewrite <- list_fmap_compose. rewrite <- (enumerate1_values xs) at 2.
    by apply list_fmap_ext. }
  rewrite !dict_of_items_lookup
    by (rewrite ?Hswap, ?enumerate1_keys; done || apply NoDup_seqZ).
  rewrite list_elem_of_fmap. split.
  - by intros ([k' s'] & [= -> ->] & Hin).
  - intros Hin. by exists (k, s).
Qed.

Section players.
Context {V : Type} `{!WinValidator V}.
Implicit Types (m : GridGameModel V) (s : string) (c : Z * Z).

(** The dictionaries of a reachable state are those of the symbols the
    model was constructed with. *)
Lemma reachable_configuration m :
  reachable m →
  ∃ player_symbols : list string,
    NoDup player_symbols
    ∧ Z.of_nat (length player_symbols) = _player_count m
    ∧ _player_to_symbol m = dict_of_items (enumerate1 player_symbols)
    ∧ _symbol_to_player m
      = dict_of_items ((λ kv, (kv.2, kv.1)) <$> enumerate1 player_symbols).
Proof.
  induction 1 as [gs syms count v m Hinit|m s c feedback m' _ IH Hplace].
  - apply init_Ok_inv in Hinit as (-> & _ & Hnd & Hlen). by exists syms.
  - destruct IH as (syms & Hnd & Hlen & Hp & Hs).
    apply place_symbol_configuration in Hplace as (_ & Hc' & Hp' & Hs' & _).
    exists syms. unfold GridGameModel.player_count in Hc'.
    by rewrite Hc', Hp', Hs'.
Qed.

(** X5: in every reachable state [get_symbol_choices] returns exactly one
    symbol for each player 1..player_count and raises [ValueError] for any
    other player; two different players never share a symbol, and
    [_symbol_to_player] maps each symbol back to its player. *)
Theorem symbol_choices_of_players m :
  reachable m →
  (∀ p, 1 ≤ p ≤ GridGameModel.player_count m →
        ∃ s, GridGameModel.get_symbol_choices m p = Ok [s]
             ∧ _symbol_to_player m !! s = Some p)
  ∧ (∀ p, ¬ (1 ≤ p ≤ GridGameModel.player_count m) →
          GridGameModel.get_symbol_choices m p = Raise ValueError)
  ∧ (∀ p q s,
       GridGameModel.get_symbol_choices m p = Ok [s] →
       GridGameModel.get_symbol_choices m q = Ok [s] →
       p = q).
Proof.
  intros (syms & Hnd & Hlen & Hp & Hs)%reachable_configuration.
  unfold GridGameModel.get_symbol_choices, GridGameModel.player_count.
  rewrite Hp, Hs, <- Hlen. split; [|split].
  - intros p Hrange.
    destruct (lookup_lt_is_Some_2 syms (Z.to_nat (p - 1))) as [s Hsym]; [lia|].
    assert (dict_of_items (enumerate1 syms) !! p = Some s) as Hlookup
      by (by apply enumerate1_lookup_position).
    exists s. rewrite Hlookup. split; [done|]. by apply enumerate1_inverse.
  - intros p Hout.
    destruct (dict_of_items (enumerate1 syms) !! p) as [s|] eqn:Hlookup; [|done].
    by apply enumerate1_lookup_position in Hlookup as [Hrange _].
  - intros p q s Hchoice_p Hchoice_q.
    destruct (dict_of_items (enumerate1 syms) !! p) as [sp|] eqn:Hlookup_p;
      [|done].
    destruct (dict_of_items (enumerate1 syms) !! q) as [sq|] eqn:Hlookup_q;
      [|done].
    simplify_eq.
    apply enumerate1_inverse in Hlookup_p, Hlookup_q; [|done..]. congruence.
Qed.

(** Every move of the history was made by the owner of its symbol and is
    still on the field, and no cell was played twice. *)
Lemma reachable_history m :
  reachable m →
  (∀ mv, mv ∈ _move_history m →
         _player_to_symbol m !! player mv = Some (symbol mv)
         ∧ Field.occupied_cells (_field m) !! cell mv = Some (symbol mv))
  ∧ NoDup (cell <$> _move_history m).
Proof.
  induction 1 as [gs syms count v m Hinit|m s c feedback m' _ IH Hplace].
  - apply init_Ok_inv in Hinit as (-> & _). simpl. split; [|constructor].
    by intros mv ?%elem_of_nil.
  - destruct IH as [Hmoves Hnd].
    apply place_symbol_Ok_inv in Hplace
      as [[_ ->]|(_ & -> & _ & Hsym & _ & Hfree)]; [done|].
    simpl. split.
    + intros mv [Hin| ->%list_elem_of_singleton]%elem_of_app.
      * destruct (Hmoves mv Hin) as [Howner Hcell]. split; [done|].
        rewrite lookup_insert_ne; [done|]. intros ->. congruence.
      * simpl. split; [done|]. by rewrite lookup_insert_eq.
    + rewrite fmap_app. simpl. apply NoDup_app. split; [done|].
      split; [|apply NoDup_singleton].
      intros c' Hc' Hnew. apply list_elem_of_singleton in Hnew. subst c'.
      apply list_elem_of_fmap in Hc' as (mv & Hmv & Hin).
      destruct (Hmoves mv Hin) as [_ Hcell]. congruence.
Qed.

(** X6: in every reachable state the field is exactly what the history
    says: the occupied cells are the cells of the moves with the symbols of
    the moves, no cell occurs in two moves, and every move lies on the grid
    and carries the symbol of the player who made it. *)
Theorem field_is_history m :
  reachable m →
  GridGameModel.occupied_cells m
    = list_to_map ((λ mv, (cell mv, symbol mv)) <$> _move_history m)
  ∧ NoDup (cell <$> _move_history m)
  ∧ (∀ mv, mv ∈ _move_history m →
           GridGameModel.get_symbol_choices m (player mv) = Ok [symbol mv]
           ∧ Field.is_within_bounds (_field m) (cell mv) = true).
Proof.
  intros Hreach. destruct (reachable_history m Hreach) as [Hmoves Hnd].
  destruct (reachable_consistent m Hreach) as [_ _ _ Hbounds Hcover].
  assert (((λ mv, (cell mv, symbol mv)) <$> _move_history m).*1
          = cell <$> _move_history m) as Hkeys
    by (rewrite <- list_fmap_compose; by apply list_fmap_ext).
  split; [|split; [done|]].
  - apply map_eq. intros c. unfold GridGameModel.occupied_cells.
    destruct (Field.occupied_cells (_field m) !! c) as [s|] eqn:Hc.
    + symmetry. apply elem_of_list_to_map; [by rewrite Hkeys|].
      destruct (Hcover c s Hc) as (mv & Hin & <- & <-).
      apply list_elem_of_fmap. by exists mv.
    + symmetry. apply not_elem_of_list_to_map. rewrite Hkeys.
      intros (mv & -> & Hin)%list_elem_of_fmap.
      destruct (Hmoves mv Hin) as [_ Hcell]. congruence.
  - intros mv Hin. destruct (Hmoves mv Hin) as [Howner Hcell]. split.
    + unfold GridGameModel.get_symbol_choices. by rewrite Howner.
    + apply Hbounds. by rewrite Hcell.
Qed.

End players.

(** ** What the answer of the line validator means *)

Section validator_answers.
Implicit Types (f : Field.t) (g : list (Z * Z)) (c : Z * Z) (s : string).
Implicit Types (h : list GridGameMove) (mv : GridGameMove).

Lemma get_winner_nonpositive f h :
  Field.grid_size f ≤ 0 →
  TicTacToeWinValidator.get_winner f h = Raise IndexError.
Proof.
  intros Hsize.
  unfold TicTacToeWinValidator.get_winner, TicTacToeWinValidator._get_groups,
    Field.valid_coords.
  by rewrite seqZ_nil.
Qed.

(** A group whose first cell is free, or whose cells are not all equal to
    the symbol of the first cell, is not a winning group. *)
Lemma not_winning_group f c0 g :
  match Field.occupied_cells f !! c0 with
  | Some b => Field.are_all_equal_to_basis f b (c0 :: g) = false
  | None => True
  end →
  ¬ winning_group f (c0 :: g).
Proof.
  intros Hskip [s Hfull].
  rewrite (Hfull c0) in Hskip by apply list_elem_of_here.
  apply are_all_equal_to_basis_spec in Hfull. congruence.
Qed.

Lemma scan_groups_sound f h groups w :
  (∀ g, g ∈ groups →
        g ≠ [] ∧ ∀ c, c ∈ g → Field.is_within_bounds f c = true) →
  TicTacToeWinValidator.scan_groups f h groups = Ok w →
  match w with
  | Some p =>
      ∃ g s mv, g ∈ groups ∧ full_of f s g
                ∧ mv ∈ h ∧ player mv = p ∧ cell mv ∈ g ∧ symbol mv = s
  | None => ∀ g, g ∈ groups → ¬ winning_group f g
  end.
Proof.
  intros Hok. induction groups as [|g groups IH]; intros Hscan.
  { simpl in Hscan. simplify_eq. by intros g ?%elem_of_nil. }
  destruct (Hok g) as [Hne Hb]; [apply list_elem_of_here|].
  assert (∀ g', g' ∈ groups →
            g' ≠ [] ∧ ∀ c, c ∈ g' → Field.is_within_bounds f c = true)
    as Hok' by (intros g' Hin; by apply Hok, list_elem_of_further).
  destruct g as [|c0 g]; [done|].
  rewrite scan_groups_cons in Hscan by (apply Hb, list_elem_of_here).
  assert (TicTacToeWinValidator.scan_groups f h groups = Ok w →
          ¬ winning_group f (c0 :: g) →
          match w with
          | Some p =>
              ∃ g1 s mv, g1 ∈ (c0 :: g) :: groups ∧ full_of f s g1
                         ∧ mv ∈ h ∧ player mv = p ∧ cell mv ∈ g1 ∧ symbol mv = s
          | None => ∀ g1, g1 ∈ (c0 :: g) :: groups → ¬ winning_group f g1
          end) as Hnext.
  { intros Hrest Hnot. specialize (IH Hok' Hrest). destruct w as [p|].
    - destruct IH as (g1 & s & mv & Hin & Hrest').
      exists g1, s, mv. split; [by apply list_elem_of_further|done].
    - intros g1 [->|Hin]%elem_of_cons; [done|by apply IH]. }
  destruct (Field.occupied_cells f !! c0) as [b|] eqn:Hc0.
  - destruct (Field.are_all_equal_to_basis f b (c0 :: g)) eqn:Hall.
    + destruct (scan_moves_cases (reverse h) (c0 :: g) b)
        as [(mv & Hin & Hcell & Hsym & Hfound)|[_ Hraise]]; [|congruence].
      rewrite Hfound in Hscan. simplify_eq.
      exists (c0 :: g), (symbol mv), mv.
      split; [apply list_elem_of_here|].
      split; [by apply are_all_equal_to_basis_spec|].
      split; [by apply elem_of_reverse|done].
    + apply Hnext; [done|]. apply not_winning_group. by rewrite Hc0.
  - apply Hnext; [done|]. apply not_winning_group. by rewrite Hc0.
Qed.

(** X7: [get_winner] never names a player out of thin air.  When it returns
    a player, the grid has positive size, some enumerated group is fully
    occupied by one symbol, and a move of the history by that player put
    that symbol into that group; when it returns no winner, no group is
    fully occupied by one symbol. *)
Theorem get_winner_sound f h w :
  TicTacToeWinValidator.get_winner f h = Ok w →
  1 ≤ Field.grid_size f
  ∧ match w with
    | Some p =>
        ∃ g s mv, g ∈ TicTacToeWinValidator._get_groups f ∧ full_of f s g
                  ∧ mv ∈ h ∧ player mv = p ∧ cell mv ∈ g ∧ symbol mv = s
    | None =>
        ∀ g, g ∈ TicTacToeWinValidator._get_groups f → ¬ winning_group f g
    end.
Proof.
  intros Hwinner. destruct (decide (1 ≤ Field.grid_size f)) as [Hsize|Hsize].
  - split; [done|]. apply scan_groups_sound; [by apply groups_usable|done].
  - rewrite get_winner_nonpositive in Hwinner by lia. discriminate.
Qed.

(** After a move by [p] on a field without a winning group, the outer loop
    finds either nothing or a line through the new cell, which the most
    recent move attributes to [p]. *)
Lemma scan_groups_after_move f h s c p groups :
  (∀ g, g ∈ groups →
        g ≠ [] ∧ ∀ c', c' ∈ g → Field.is_within_bounds f c' = true) →
  (∀ g, g ∈ groups → ¬ winning_group f g) →
  TicTacToeWinValidator.scan_groups (Field.place_symbol s c f)
    (h ++ [mkMove p s c]) groups = Ok None
  ∨ TicTacToeWinValidator.scan_groups (Field.place_symbol s c f)
      (h ++ [mkMove p s c]) groups = Ok (Some p).
Proof.
  intros Hok Hnone. induction groups as [|g groups IH]; [by left|].
  destruct (Hok g) as [Hne Hb]; [apply list_elem_of_here|].
  assert (TicTacToeWinValidator.scan_groups (Field.place_symbol s c f)
            (h ++ [mkMove p s c]) groups = Ok None
          ∨ TicTacToeWinValidator.scan_groups (Field.place_symbol s c f)
              (h ++ [mkMove p s c]) groups = Ok (Some p)) as IH'.
  { apply IH; intros g' Hin; [apply Hok|apply Hnone];
      by apply list_elem_of_further. }
  destruct g as [|c0 g]; [done|].
  rewrite scan_groups_cons by (apply (Hb c0), list_elem_of_here).
  destruct (Field.occupied_cells (Field.place_symbol s c f) !! c0)
    as [b|] eqn:Hc0; [|done].
  destruct (Field.are_all_equal_to_basis (Field.place_symbol s c f) b (c0 :: g))
    eqn:Hall; [|done].
  apply are_all_equal_to_basis_spec in Hall. right.
  destruct (decide (c ∈ c0 :: g)) as [Hin|Hnotin].
  - assert (b = s) as ->.
    { specialize (Hall c Hin). simpl in Hall.
      rewrite lookup_insert_eq in Hall. congruence. }
    rewrite reverse_app. simpl.
    by rewrite (proj2 (move_matches_spec (c0 :: g) s (mkMove p s c))).
  - destruct (Hnone (c0 :: g)); [apply list_elem_of_here|].
    exists b. intros c' Hc'. specialize (Hall c' Hc'). simpl in Hall.
    rewrite lookup_insert_ne in Hall; [done|]. by intros ->.
Qed.

End validator_answers.

(** X8: only the player who has just moved can be the winner: after a call
    answered VALID, [winner] returns either no winner or the player who
    made the move. *)
Theorem only_the_mover_wins
    (m : GridGameModel TicTacToeWinValidator) (s : string) (c : Z * Z)
    (m' : GridGameModel TicTacToeWinValidator) :
  GridGameModel.place_symbol m s c = Ok (VALID, m') →
  GridGameModel.winner m' = Ok None
  ∨ GridGameModel.winner m' = Ok (Some (GridGameModel.current_player m)).
Proof.
  intros Hplace. apply place_symbol_Ok_inv in Hplace
    as [[Hne _]|(_ & -> & Hover & _ & Hb & _)]; [done|].
  assert (1 ≤ Field.grid_size (_field m)) as Hsize
    by (apply is_within_bounds_spec in Hb; lia).
  assert (GridGameModel.winner m = Ok None) as Hwinner.
  { unfold GridGameModel.is_game_over in Hover.
    destruct (GridGameModel.winner m) as [[p|]|e]; simpl in Hover; congruence. }
  pose proof (scan_groups_sound (_field m) (_move_history m)
                (TicTacToeWinValidator._get_groups (_field m)) None
                (groups_usable (_field m) Hsize) Hwinner) as Hnone.
  exact (scan_groups_after_move (_field m) (_move_history m) s c
           (_current_player m) (TicTacToeWinValidator._get_groups (_field m))
           (groups_usable (_field m) Hsize) Hnone).
Qed.

(** X9: in a reachable state the winner is the owner of the winning symbol:
    when [winner] returns a player, some group is fully occupied by that
    player's symbol, and a direct lookup of the symbol in [_symbol_to_player]
    gives the same player as the scan of the history. *)
Theorem winner_owns_winning_symbol
    (m : GridGameModel TicTacToeWinValidator) (p : Z) :
  reachable m →
  GridGameModel.winner m = Ok (Some p) →
  ∃ g s,
    g ∈ TicTacToeWinValidator._get_groups (_field m)
    ∧ full_of (_field m) s g
    ∧ GridGameModel.get_symbol_choices m p = Ok [s]
    ∧ _symbol_to_player m !! s = Some p.
Proof.
  intros Hreach Hwinner.
  destruct (decide (1 ≤ Field.grid_size (_field m))) as [Hsize|Hsize];
    [|unfold GridGameModel.winner in Hwinner;
      rewrite (get_winner_nonpositive (_field m)) in Hwinner by lia; done].
  destruct (scan_groups_sound (_field m) (_move_history m)
              (TicTacToeWinValidator._get_groups (_field m)) (Some p)
              (groups_usable (_field m) Hsize) Hwinner)
    as (g & s & mv & Hg & Hfull & Hin & <- & _ & <-).
  destruct (reachable_history m Hreach) as [Hmoves _].
  destruct (Hmoves mv Hin) as [Howner _].
  destruct (reachable_configuration m Hreach) as (syms & Hnd & _ & Hp & Hs).
  exists g, (symbol mv). split; [done|]. split; [done|]. split.
  - unfold GridGameModel.get_symbol_choices. by rewrite Howner.
  - rewrite Hs. apply enumerate1_inverse; [done|]. by rewrite <- Hp.
Qed.

(** ** Calls that return and calls that raise *)

Lemma place_symbols_total (m : GridGameModel TicTacToeWinValidator)
    (calls : list (string * (Z * Z))) :
  reachable m →
  1 ≤ GridGameModel.grid_size m →
  ∃ feedbacks m', place_symbols m calls = Ok (feedbacks, m').
Proof.
  revert m. induction calls as [|[s c] calls IH]; intros m Hreach Hsize.
  { by exists [], m. }
  destruct (place_symbol_total m s c Hreach Hsize) as (feedback & m1 & Hplace).
  destruct (IH m1) as (rest & m' & Hrest).
  - by eapply reachable_place.
  - apply place_symbol_configuration in Hplace as [-> _]. done.
  - exists (feedback :: rest), m'. simpl. rewrite Hplace, bind_Ok. simpl.
    by rewrite Hrest.
Qed.

(** X10: on a grid of positive size nothing the caller can do makes the
    model raise: in every reachable state [winner] and [is_game_over]
    return, and every call and every sequence of calls of [place_symbol],
    whatever the arguments, returns a feedback for each call. *)
Theorem reachable_calls_never_raise
    (m : GridGameModel TicTacToeWinValidator) :
  reachable m →
  1 ≤ GridGameModel.grid_size m →
  (∃ w, GridGameModel.winner m = Ok w)
  ∧ (∃ over, GridGameModel.is_game_over m = Ok over)
  ∧ (∀ s c, ∃ feedback m',
       GridGameModel.place_symbol m s c = Ok (feedback, m'))
  ∧ (∀ calls, ∃ feedbacks m',
       place_symbols m calls = Ok (feedbacks, m')
       ∧ length feedbacks = length calls).
Proof.
  intros Hreach Hsize.
  destruct (consistent_winner_returns m (reachable_consistent m Hreach) Hsize)
    as [w Hw].
  split; [by exists w|]. split; [|split].
  - unfold GridGameModel.is_game_over. rewrite Hw. destruct w; by eexists.
  - intros s c. by apply place_symbol_total.
  - intros calls.
    destruct (place_symbols_total m calls Hreach Hsize) as (feedbacks & m' & Hrun).
    exists feedbacks, m'. split; [done|]. clear Hreach Hsize Hw.
    revert m feedbacks Hrun. induction calls as [|[s c] calls IH];
      intros m feedbacks Hrun.
    + simpl in Hrun. by simplify_eq.
    + apply place_symbols_cons_inv in Hrun
        as (feedback & m1 & rest & _ & Hrest & ->).
      simpl. f_equal. by eapply IH.
Qed.

(** X11: a model whose grid size is not positive is unusable with the line
    validator: [winner], [is_game_over] and every [place_symbol] call raise
    [IndexError], because the only groups are the two empty diagonals. *)
Theorem nonpositive_grid_always_raises
    (m : GridGameModel TicTacToeWinValidator) :
  GridGameModel.grid_size m ≤ 0 →
  GridGameModel.winner m = Raise IndexError
  ∧ GridGameModel.is_game_over m = Raise IndexError
  ∧ (∀ s c, GridGameModel.place_symbol m s c = Raise IndexError).
Proof.
  intros Hsize.
  assert (GridGameModel.winner m = Raise IndexError) as Hwinner
    by (by apply get_winner_nonpositive).
  assert (GridGameModel.is_game_over m = Raise IndexError) as Hover
    by (unfold GridGameModel.is_game_over; by rewrite Hwinner).
  split; [done|]. split; [done|].
  intros s c. unfold GridGameModel.place_symbol. by rewrite Hover.
Qed.

(** ** The length of a game *)

Lemma length_product (rows cols : list Z) :
  length (row ← rows; (λ col, (row, col)) <$> cols)
  = (length rows * length cols)%nat.
Proof.
  induction rows as [|row rows IH]; [done|].
  rewrite bind_cons, length_app, length_fmap, IH. simpl. lia.
Qed.

Lemma length_cells (f : Field.t) :
  length (Field.cells f)
  = (Z.to_nat (Field.grid_size f) * Z.to_nat (Field.grid_size f))%nat.
Proof.
  unfold Field.cells. by rewrite length_product, length_valid_coords.
Qed.

Lemma size_cells_le (f : Field.t) :
  (size (list_to_set (Field.cells f) : gset (Z * Z))
   ≤ Z.to_nat (Field.grid_size f) * Z.to_nat (Field.grid_size f))%nat.
Proof.
  rewrite <- length_cells. generalize (Field.cells f). intros l.
  induction l as [|x l IH]; [done|]. rewrite list_to_set_cons; simpl.
  rewrite size_union_alt, size_singleton.
  assert (size (list_to_set l ∖ {[x]} : gset (Z * Z))
            ≤ size (list_to_set l : gset (Z * Z)))%nat as Hle
    by (apply subseteq_size; set_solver).
  lia.
Qed.

Lemma occupied_subset_cells {V : Type} (m : GridGameModel V) :
  consistent m →
  dom (Field.occupied_cells (_field m))
    ⊆ (list_to_set (Field.cells (_field m)) : gset (Z * Z)).
Proof.
  intros [_ _ _ Hbounds _] c Hc. apply elem_of_dom in Hc.
  apply elem_of_list_to_set, elem_of_cells. by apply Hbounds.
Qed.

(** The history is never longer than the number of cells, and shorter
    while a cell of the grid is free. *)
Lemma history_length_bound {V : Type} (m : GridGameModel V) :
  consistent m →
  (length (_move_history m)
   ≤ Z.to_nat (Field.grid_size (_field m))
     * Z.to_nat (Field.grid_size (_field m)))%nat
  ∧ (Field.has_unoccupied_cell (_field m) = true →
     (length (_move_history m)
      < Z.to_nat (Field.grid_size (_field m))
        * Z.to_nat (Field.grid_size (_field m)))%nat).
Proof.
  intros Hcons. pose proof (occupied_subset_cells m Hcons) as Hsub.
  pose proof (size_cells_le (_field m)) as Hcells.
  rewrite (history_counts_cells m Hcons), <- size_dom. split.
  - apply subseteq_size in Hsub. lia.
  - intros (c & Hb & Hfree)%has_unoccupied_cell_spec.
    assert (dom (Field.occupied_cells (_field m))
              ⊂ (list_to_set (Field.cells (_field m)) : gset (Z * Z))) as Hstrict.
    { split; [done|]. intros Hsup.
      assert (c ∈ dom (Field.occupied_cells (_field m))) as Hc
        by (by apply Hsup, elem_of_list_to_set, elem_of_cells).
      apply elem_of_dom in Hc as [s Hs]. congruence. }
    apply subset_size in Hstrict. lia.
Qed.

(** X12: a game is finite: in every reachable state the history holds at
    most grid_size² moves, fewer while the game is not over, and once it
    holds grid_size² moves the game is over. *)
Theorem game_length_bounded (m : GridGameModel TicTacToeWinValidator) :
  reachable m →
  1 ≤ GridGameModel.grid_size m →
  Z.of_nat (length (_move_history m))
    ≤ GridGameModel.grid_size m * GridGameModel.grid_size m
  ∧ (GridGameModel.is_game_over m = Ok false →
     Z.of_nat (length (_move_history m))
       < GridGameModel.grid_size m * GridGameModel.grid_size m)
  ∧ (Z.of_nat (length (_move_history m))
       = GridGameModel.grid_size m * GridGameModel.grid_size m →
     GridGameModel.is_game_over m = Ok true).
Proof.
  intros Hreach Hsize. pose proof (reachable_consistent m Hreach) as Hcons.
  destruct (history_length_bound m Hcons) as [Hle Hlt].
  destruct (consistent_winner_returns m Hcons Hsize) as [w Hw].
  unfold GridGameModel.grid_size in *.
  assert (Z.of_nat (Z.to_nat (Field.grid_size (_field m))
                    * Z.to_nat (Field.grid_size (_field m)))
          = Field.grid_size (_field m) * Field.grid_size (_field m)) as Hsq
    by (rewrite Nat2Z.inj_mul, Z2Nat.id by lia; done).
  unfold GridGameModel.is_game_over. rewrite Hw. simpl.
  split; [lia|]. split.
  - destruct w as [p|]; [discriminate|]. intros [= Hfree%negb_false_iff].
    specialize (Hlt Hfree). lia.
  - intros Hfull. destruct w as [p|]; [done|]. f_equal.
    destruct (Field.has_unoccupied_cell (_field m)) eqn:Hfree; [|done].
    specialize (Hlt eq_refl). lia.
Qed.

(** ** The further properties at work on the sample games *)

(** O's answer in the centre was accepted, so every check had passed. *)
Lemma valid_only_after_all_checks_witness :
  GridGameModel.place_symbol sample_opened "O" (2, 2)
    = Ok (VALID, sample_after [("X", (1, 1)); ("O", (2, 2))]%string)
  ∧ GridGameModel.is_game_over sample_opened = Ok false
  ∧ GridGameModel.get_symbol_choices sample_opened
      (GridGameModel.current_player sample_opened) = Ok ["O"%string]
  ∧ Field.is_within_bounds (_field sample_opened) (2, 2) = true
  ∧ GridGameModel.occupied_cells sample_opened !! (2, 2) = None.
Proof.
  assert (GridGameModel.place_symbol sample_opened "O" (2, 2)
          = Ok (VALID, sample_after [("X", (1, 1)); ("O", (2, 2))]%string))
    as Hplace by (vm_compute; reflexivity).
  split; [exact Hplace|].
  exact (valid_only_after_all_checks sample_opened "O" (2, 2) _ Hplace).
Defined.

Lemma mixed_calls_run :
  place_symbols sample_fresh mixed_calls
  = Ok ([VALID; INVALID_SYMBOL; OUT_OF_BOUNDS; OCCUPIED; VALID], sample_mixed).
Proof. vm_compute. reflexivity. Qed.

(** The five mixed calls leave the configuration of the fresh board. *)
Lemma configuration_never_changes_witness :
  GridGameModel.grid_size sample_mixed = 3
  ∧ GridGameModel.player_count sample_mixed = 2
  ∧ _player_to_symbol sample_mixed = _player_to_symbol sample_fresh
  ∧ _symbol_to_player sample_mixed = _symbol_to_player sample_fresh.
Proof.
  destruct (configuration_never_changes sample_fresh mixed_calls _ _
              mixed_calls_run) as (Hsize & Hcount & Hp & Hs & _).
  split; [rewrite Hsize; vm_compute; reflexivity|].
  split; [rewrite Hcount; vm_compute; reflexivity|].
  split; [exact Hp|exact Hs].
Defined.

(** Of the five mixed calls two were accepted: the history holds two
    moves. *)
Lemma calls_only_add_witness :
  accepted [VALID; INVALID_SYMBOL; OUT_OF_BOUNDS; OCCUPIED; VALID] = 2%nat
  ∧ GridGameModel.occupied_cells sample_fresh
      ⊆ GridGameModel.occupied_cells sample_mixed
  ∧ length (_move_history sample_mixed) = 2%nat.
Proof.
  destruct (calls_only_add sample_fresh mixed_calls _ _ mixed_calls_run)
    as (Hocc & _ & Hlen).
  split; [reflexivity|]. split; [exact Hocc|].
  rewrite Hlen. vm_compute. reflexivity.
Defined.

(** After two accepted moves of two players it is player 1's turn again. *)
Lemma turn_rotation_witness :
  1 ≤ GridGameModel.current_player sample_fresh
    ≤ GridGameModel.player_count sample_fresh
  ∧ GridGameModel.current_player sample_mixed = 1.
Proof.
  assert (1 ≤ GridGameModel.current_player sample_fresh
            ≤ GridGameModel.player_count sample_fresh) as Hturn
    by (vm_compute; split; discriminate).
  split; [exact Hturn|].
  rewrite (turn_rotation sample_fresh mixed_calls _ _ Hturn mixed_calls_run).
  vm_compute. reflexivity.
Defined.

(** On the opened board players 1 and 2 have their symbols and there is no
    player 0 and no player 3. *)
Lemma symbol_choices_of_players_witness :
  reachable sample_opened
  ∧ (∃ s, GridGameModel.get_symbol_choices sample_opened 2 = Ok [s]
          ∧ _symbol_to_player sample_opened !! s = Some 2)
  ∧ GridGameModel.get_symbol_choices sample_opened 0 = Raise ValueError
  ∧ GridGameModel.get_symbol_choices sample_opened 3 = Raise ValueError.
Proof.
  assert (GridGameModel.player_count sample_opened = 2) as Hcount
    by (vm_compute; reflexivity).
  destruct (symbol_choices_of_players sample_opened
              (sample_after_reachable _)) as (Hin & Hout & _).
  split; [apply sample_after_reachable|].
  split; [apply Hin; rewrite Hcount; lia|].
  split; apply Hout; rewrite Hcount; lia.
Defined.

(** The field of the won game is the map of its five moves. *)
Lemma field_is_history_witness :
  reachable sample_won
  ∧ GridGameModel.occupied_cells sample_won
    = list_to_map ((λ mv, (cell mv, symbol mv)) <$> _move_history sample_won)
  ∧ NoDup (cell <$> _move_history sample_won).
Proof.
  destruct (field_is_history sample_won (sample_after_reachable _))
    as (Hfield & Hnd & _).
  split; [apply sample_after_reachable|]. split; [exact Hfield|exact Hnd].
Defined.

(** The validator names player 1 on the field with two complete rows, and
    a move of player 1 lies in a group full of its symbol. *)
Lemma get_winner_sound_witness :
  TicTacToeWinValidator.get_winner two_rows_field two_rows_history
    = Ok (Some 1)
  ∧ ∃ g s mv,
      g ∈ TicTacToeWinValidator._get_groups two_rows_field
      ∧ full_of two_rows_field s g
      ∧ mv ∈ two_rows_history ∧ player mv = 1 ∧ cell mv ∈ g ∧ symbol mv = s.
Proof.
  assert (TicTacToeWinValidator.get_winner two_rows_field two_rows_history
          = Ok (Some 1)) as Hwinner by (vm_compute; reflexivity).
  split; [exact Hwinner|].
  exact (proj2 (get_winner_sound two_rows_field two_rows_history _ Hwinner)).
Defined.

(** X completes the top row and is the winner. *)
Lemma only_the_mover_wins_witness :
  GridGameModel.place_symbol sample_before_win "X" (1, 3)
    = Ok (VALID, sample_won)
  ∧ GridGameModel.current_player sample_before_win = 1
  ∧ (GridGameModel.winner sample_won = Ok None
     ∨ GridGameModel.winner sample_won
       = Ok (Some (GridGameModel.current_player sample_before_win))).
Proof.
  assert (GridGameModel.place_symbol sample_before_win "X" (1, 3)
          = Ok (VALID, sample_won)) as Hplace by (vm_compute; reflexivity).
  split; [exact Hplace|]. split; [vm_compute; reflexivity|].
  exact (only_the_mover_wins sample_before_win "X" (1, 3) sample_won Hplace).
Defined.

(** The winner of the won game owns the symbol of a complete line. *)
Lemma winner_owns_winning_symbol_witness :
  reachable sample_won
  ∧ GridGameModel.winner sample_won = Ok (Some 1)
  ∧ ∃ g s,
      g ∈ TicTacToeWinValidator._get_groups (_field sample_won)
      ∧ full_of (_field sample_won) s g
      ∧ GridGameModel.get_symbol_choices sample_won 1 = Ok [s]
      ∧ _symbol_to_player sample_won !! s = Some 1.
Proof.
  assert (GridGameModel.winner sample_won = Ok (Some 1)) as Hwinner
    by (vm_compute; reflexivity).
  split; [apply sample_after_reachable|]. split; [exact Hwinner|].
  exact (winner_owns_winning_symbol sample_won 1
           (sample_after_reachable _) Hwinner).
Defined.

(** On the opened board every call returns. *)
Lemma reachable_calls_never_raise_witness :
  reachable sample_opened
  ∧ 1 ≤ GridGameModel.grid_size sample_opened
  ∧ ∀ s c, ∃ feedback m',
      GridGameModel.place_symbol sample_opened s c = Ok (feedback, m').
Proof.
  assert (1 ≤ GridGameModel.grid_size sample_opened) as Hsize
    by (vm_compute; discriminate).
  split; [apply sample_after_reachable|]. split; [exact Hsize|].
  exact (proj1 (proj2 (proj2
           (reachable_calls_never_raise sample_opened
              (sample_after_reachable _) Hsize)))).
Defined.

(** A model of grid size -1 is constructed, and its first call raises. *)
Lemma nonpositive_grid_always_raises_witness :
  GridGameModel.__init__ (-1) ["X"; "O"]%string 2 TicTacToe
    = Ok sample_negative_grid
  ∧ GridGameModel.grid_size sample_negative_grid ≤ 0
  ∧ GridGameModel.place_symbol sample_negative_grid "X" (1, 1)
    = Raise IndexError.
Proof.
  assert (GridGameModel.grid_size sample_negative_grid ≤ 0) as Hsize
    by (vm_compute; discriminate).
  split; [vm_compute; reflexivity|]. split; [exact Hsize|].
  exact (proj2 (proj2 (nonpositive_grid_always_raises sample_negative_grid
                         Hsize)) "X"%string (1, 1)).
Defined.

(** The drawn game holds nine moves on nine cells and is over; the opened
    game, not over, holds fewer. *)
Lemma game_length_bounded_witness :
  reachable sample_drawn
  ∧ Z.of_nat (length (_move_history sample_drawn)) = 9
  ∧ GridGameModel.is_game_over sample_drawn = Ok true.
Proof.
  assert (1 ≤ GridGameModel.grid_size sample_drawn) as Hsize
    by (vm_compute; discriminate).
  assert (Z.of_nat (length (_move_history sample_drawn)) = 9) as Hlen
    by (vm_compute; reflexivity).
  split; [apply sample_after_reachable|]. split; [exact Hlen|].
  apply (proj2 (proj2 (game_length_bounded sample_drawn
                         (sample_after_reachable _) Hsize))).
  rewrite Hlen. vm_compute. reflexivity.
Defined.

(** ** The lines through a cell *)

Section lines.
Implicit Types (f : Field.t) (g : list (Z * Z)).

Lemma get_groups_row f (i : nat) :
  (i < Z.to_nat (Field.grid_size f))%nat →
  TicTacToeWinValidator._get_groups f !! i
  = Some ((λ k, (Z.of_nat i + 1, k)) <$> Field.valid_coords f).
Proof.
  intros Hi. unfold TicTacToeWinValidator._get_groups.
  rewrite lookup_app_l by (by rewrite length_fmap, length_valid_coords).
  by rewrite line_lookup.
Qed.

Lemma get_groups_column f (i : nat) :
  (i < Z.to_nat (Field.grid_size f))%nat →
  TicTacToeWinValidator._get_groups f !! (Z.to_nat (Field.grid_size f) + i)%nat
  = Some ((λ k, (k, Z.of_nat i + 1)) <$> Field.valid_coords f).
Proof.
  intros Hi. unfold TicTacToeWinValidator._get_groups.
  rewrite lookup_app_r by (rewrite length_fmap, length_valid_coords; lia).
  rewrite length_fmap, length_valid_coords.
  replace (Z.to_nat (Field.grid_size f) + i - Z.to_nat (Field.grid_size f))%nat
    with i by lia.
  rewrite lookup_app_l by (by rewrite length_fmap, length_valid_coords).
  by rewrite line_lookup.
Qed.

Lemma get_groups_diagonals f :
  TicTacToeWinValidator._get_groups f
    !! (2 * Z.to_nat (Field.grid_size f))%nat
  = Some ((λ k, (k, k)) <$> Field.valid_coords f)
  ∧ TicTacToeWinValidator._get_groups f
      !! (2 * Z.to_nat (Field.grid_size f) + 1)%nat
    = Some ((λ k, (k, Field.grid_size f - k + 1)) <$> Field.valid_coords f).
Proof.
  unfold TicTacToeWinValidator._get_groups.
  rewrite !lookup_app_r
    by (rewrite ?length_app, ?length_fmap, ?length_valid_coords; lia).
  rewrite !length_fmap, !length_valid_coords.
  replace (2 * Z.to_nat (Field.grid_size f) - Z.to_nat (Field.grid_size f)
           - Z.to_nat (Field.grid_size f))%nat with 0%nat by lia.
  replace (2 * Z.to_nat (Field.grid_size f) + 1 - Z.to_nat (Field.grid_size f)
           - Z.to_nat (Field.grid_size f))%nat with 1%nat by lia.
  done.
Qed.

(** X13: the lines through a cell of the grid.  The cell (r, k) lies in the
    group of its row, whose cells all have row r, and in the group of its
    column, whose cells all have column k; it lies on the backslash diagonal
    exactly when r = k and on the forward-slash diagonal exactly when
    r + k = grid_size + 1. *)
Theorem lines_through_cell f (r k : Z) :
  1 ≤ r ≤ Field.grid_size f →
  1 ≤ k ≤ Field.grid_size f →
  (∃ g, TicTacToeWinValidator._get_groups f !! Z.to_nat (r - 1) = Some g
        ∧ (r, k) ∈ g ∧ ∀ c, c ∈ g → c.1 = r)
  ∧ (∃ g, TicTacToeWinValidator._get_groups f
            !! (Z.to_nat (Field.grid_size f) + Z.to_nat (k - 1))%nat = Some g
          ∧ (r, k) ∈ g ∧ ∀ c, c ∈ g → c.2 = k)
  ∧ (∃ g, TicTacToeWinValidator._get_groups f
            !! (2 * Z.to_nat (Field.grid_size f))%nat = Some g
          ∧ ((r, k) ∈ g ↔ r = k))
  ∧ (∃ g, TicTacToeWinValidator._get_groups f
            !! (2 * Z.to_nat (Field.grid_size f) + 1)%nat = Some g
          ∧ ((r, k) ∈ g ↔ r + k = Field.grid_size f + 1)).
Proof.
  intros Hr Hk. destruct (get_groups_diagonals f) as [Hback Hslash].
  split; [|split; [|split]].
  - eexists. split; [apply get_groups_row; lia|].
    replace (Z.of_nat (Z.to_nat (r - 1)) + 1) with r by lia. split.
    + apply list_elem_of_fmap. exists k. by rewrite elem_of_valid_coords.
    + by intros c (k' & -> & _)%list_elem_of_fmap.
  - eexists. split; [apply get_groups_column; lia|].
    replace (Z.of_nat (Z.to_nat (k - 1)) + 1) with k by lia. split.
    + apply list_elem_of_fmap. exists r. by rewrite elem_of_valid_coords.
    + by intros c (r' & -> & _)%list_elem_of_fmap.
  - eexists. split; [exact Hback|]. rewrite list_elem_of_fmap. split.
    + by intros (k' & [= -> ->] & _).
    + intros ->. exists k. by rewrite elem_of_valid_coords.
  - eexists. split; [exact Hslash|]. rewrite list_elem_of_fmap. split.
    + intros (k' & [= -> ->] & _). lia.
    + intros Hsum. exists r. rewrite elem_of_valid_coords.
      split; [|done]. f_equal. lia.
Qed.

End lines.

(** ** The first move of a game *)

(** X14: a game constructed with grid_size ≥ 1 can be played: there is no
    winner and the game is not over, and player 1 placing the first of the
    configured symbols on any cell of the grid is answered VALID, after
    which that cell is the only occupied one and player 2 is to move. *)
Theorem fresh_game_is_playable
    (grid_size : Z) (player_symbols : list string) (count : Z)
    (m : GridGameModel TicTacToeWinValidator) (s : string) :
  GridGameModel.__init__ grid_size player_symbols count TicTacToe = Ok m →
  1 ≤ grid_size →
  player_symbols !! 0%nat = Some s →
  GridGameModel.winner m = Ok None
  ∧ GridGameModel.is_game_over m = Ok false
  ∧ ∀ c, Field.is_within_bounds (_field m) c = true →
         ∃ m', GridGameModel.place_symbol m s c = Ok (VALID, m')
               ∧ GridGameModel.occupied_cells m' = {[c := s]}
               ∧ _move_history m' = [mkMove 1 s c]
               ∧ GridGameModel.current_player m' = 2.
Proof.
  intros (-> & Hcount & Hnd & Hlen)%init_Ok_inv Hsize Hfirst.
  assert (GridGameModel.winner
            (mkModel (Field.new grid_size) [] TicTacToe count
               (dict_of_items (enumerate1 player_symbols))
               (dict_of_items
                  ((λ kv, (kv.2, kv.1)) <$> enumerate1 player_symbols)) 1)
          = Ok None) as Hwinner.
  { apply scan_groups_none; [by apply groups_usable|].
    intros g Hg [s' Hfull].
    destruct (groups_usable (Field.new grid_size) Hsize g Hg) as [Hne _].
    destruct g as [|c0 g]; [done|].
    specialize (Hfull c0 (list_elem_of_here _ _)). simpl in Hfull.
    by rewrite lookup_empty in Hfull. }
  assert (Field.has_unoccupied_cell (Field.new grid_size) = true) as Hfree.
  { apply has_unoccupied_cell_spec. exists (1, 1).
    split; [|apply lookup_empty]. apply is_within_bounds_spec. simpl. lia. }
  assert (GridGameModel.is_game_over
            (mkModel (Field.new grid_size) [] TicTacToe count
               (dict_of_items (enumerate1 player_symbols))
               (dict_of_items
                  ((λ kv, (kv.2, kv.1)) <$> enumerate1 player_symbols)) 1)
          = Ok false) as Hover.
  { unfold GridGameModel.is_game_over. rewrite Hwinner. simpl in *.
    by rewrite Hfree. }
  split; [done|]. split; [done|]. intros c Hb. eexists.
  rewrite (place_symbol_own_symbol _ s c [s]); [| done | | apply list_elem_of_here].
  - simpl in Hb. simpl. rewrite Hb. unfold GridGameModel.occupied_cells. simpl.
    rewrite lookup_empty. split; [done|]. simpl.
    split; [by rewrite insert_empty|]. split; [done|].
    unfold GridGameModel.current_player, GridGameModel.next_player; simpl.
    unfold GridGameModel.current_player, GridGameModel.player_count; simpl.
    rewrite bool_decide_eq_true_2 by lia. done.
  - unfold GridGameModel.get_symbol_choices, GridGameModel.current_player. simpl.
    assert (dict_of_items (enumerate1 player_symbols) !! 1 = Some s) as ->; [|done].
    apply enumerate1_lookup. exists 0%nat. split; [done|lia].
Qed.

(** On the 3 by 3 grid the corner (1, 3) lies on the forward-slash diagonal
    and not on the backslash diagonal. *)
Lemma lines_through_cell_witness :
  1 ≤ 1 ≤ Field.grid_size (Field.new 3) ∧ 1 ≤ 3 ≤ Field.grid_size (Field.new 3)
  ∧ (∃ g, TicTacToeWinValidator._get_groups (Field.new 3) !! 7%nat = Some g
          ∧ (1, 3) ∈ g)
  ∧ (∃ g, TicTacToeWinValidator._get_groups (Field.new 3) !! 6%nat = Some g
          ∧ (1, 3) ∉ g).
Proof.
  assert (1 ≤ 1 ≤ Field.grid_size (Field.new 3)) as Hr by (simpl; lia).
  assert (1 ≤ 3 ≤ Field.grid_size (Field.new 3)) as Hk by (simpl; lia).
  destruct (lines_through_cell (Field.new 3) 1 3 Hr Hk)
    as (_ & _ & (gb & Hgb & Hback) & (gs & Hgs & Hslash)).
  split; [exact Hr|]. split; [exact Hk|]. split.
  - exists gs. split; [exact Hgs|]. apply Hslash. reflexivity.
  - exists gb. split; [exact Hgb|]. intros Hin. apply Hback in Hin. discriminate.
Defined.

(** The opening move of the sample game. *)
Lemma fresh_game_is_playable_witness :
  GridGameModel.__init__ 3 ["X"; "O"]%string 2 TicTacToe = Ok sample_fresh
  ∧ GridGameModel.is_game_over sample_fresh = Ok false
  ∧ ∃ m', GridGameModel.place_symbol sample_fresh "X" (2, 2) = Ok (VALID, m')
          ∧ GridGameModel.occupied_cells m' = {[(2, 2) := "X"%string]}
          ∧ _move_history m' = [mkMove 1 "X" (2, 2)]
          ∧ GridGameModel.current_player m' = 2.
Proof.
  assert (GridGameModel.__init__ 3 ["X"; "O"]%string 2 TicTacToe
          = Ok sample_fresh) as Hinit by (vm_compute; reflexivity).
  destruct (fresh_game_is_playable 3 ["X"; "O"]%string 2 sample_fresh
              "X"%string Hinit)
    as (_ & Hover & Hmove); [lia | reflexivity |].
  split; [exact Hinit|]. split; [exact Hover|].
  apply Hmove. vm_compute. reflexivity.
Defined.
